(** * The task list of [src/App.vue]: view engine and store round trips

    A shallow embedding of the script part of the component: the task
    collection and its shared objects, the derived view [filteredTodos],
    the aggregate [completionPercentage], and the five mutation intents
    ([addTodo], [toggleTodo], [deleteTodo], [saveEdit], [clearCompleted]),
    each cut at its [await] into the part that issues the request and the
    part that runs when the reply arrives. *)

From Stdlib Require Import ZArith List Ascii String Sorted Permutation Lia.
From Stdlib Require Import Floats.
From stdpp Require Import base tactics option list.

Local Open Scope Z_scope.

(** ** Strings

    A JavaScript string is a sequence of UTF-16 code units. *)

Module JsString.

Definition jsstring := list N.

(** An ASCII literal as a JavaScript string. *)
Definition lit (s : string) : jsstring :=
  map (fun c => N_of_ascii c) (list_ascii_of_string s).

(** [ToBoolean] on a string: only the empty string is falsy. *)
Definition truthy (s : jsstring) : bool :=
  match s with [] => false | _ => true end.

(** [===] on strings. *)
Definition eqb (a b : jsstring) : bool := bool_decide (a = b).

(** WhiteSpace and LineTerminator code units, as [String.prototype.trim]
    strips them. *)
Definition isWhiteSpace (c : N) : bool :=
  ((9 <=? c) && (c <=? 13) || (c =? 32) || (c =? 160) || (c =? 5760)
   || (8192 <=? c) && (c <=? 8202) || (c =? 8232) || (c =? 8233)
   || (c =? 8239) || (c =? 8287) || (c =? 12288) || (c =? 65279))%N.

Fixpoint trimStart (s : jsstring) : jsstring :=
  match s with
  | c :: s' => if isWhiteSpace c then trimStart s' else s
  | [] => []
  end.

Definition trimEnd (s : jsstring) : jsstring := rev (trimStart (rev s)).

Definition trim (s : jsstring) : jsstring := trimEnd (trimStart s).

(** [s.startsWith(p)]. *)
Fixpoint startsWith (s p : jsstring) : bool :=
  match p, s with
  | [], _ => true
  | _ :: _, [] => false
  | x :: p', y :: s' => (x =? y)%N && startsWith s' p'
  end.

(** [s.includes(q)]: [q] occurs in [s] as a contiguous run. *)
Fixpoint includes (s q : jsstring) : bool :=
  startsWith s q ||
  match s with
  | [] => false
  | _ :: s' => includes s' q
  end.

(** [a < b] on strings: lexicographic on code units, a proper prefix first. *)
Fixpoint ltb (a b : jsstring) : bool :=
  match a, b with
  | _, [] => false
  | [], _ :: _ => true
  | x :: a', y :: b' =>
      if (x <? y)%N then true else if (y <? x)%N then false else ltb a' b'
  end.

(** [s.split(sep)[0]] for a one-unit separator: the run before its first
    occurrence, all of [s] when there is none. *)
Fixpoint splitHead (sep : N) (s : jsstring) : jsstring :=
  match s with
  | [] => []
  | c :: s' => if (c =? sep)%N then [] else c :: splitHead sep s'
  end.

End JsString.

Import JsString.

(** ** The host's built-ins that stay abstract

    [toLowerCase] is [String.prototype.toLowerCase]; [getTime s] is
    [new Date(s).getTime()], [None] standing for [NaN] (an invalid date). *)
Class Host := {
  toLowerCase : jsstring -> jsstring;
  getTime : jsstring -> option Z
}.

(** ** Data model *)

Inductive Priority := low | medium | high.

Definition priorityName (p : Priority) : jsstring :=
  match p with
  | low => lit "low"
  | medium => lit "medium"
  | high => lit "high"
  end.

(** [interface Todo]. [None] is [null]. *)
Record Todo := mkTodo {
  id : Z;
  task : jsstring;
  completed : bool;
  created_at : jsstring;
  category : jsstring;
  priority : Priority;
  due_date : option jsstring;
  notes : option jsstring
}.

Definition set_completed (v : bool) (t : Todo) : Todo :=
  mkTodo (id t) (task t) v (created_at t) (category t) (priority t)
         (due_date t) (notes t).

Definition set_task (v : jsstring) (t : Todo) : Todo :=
  mkTodo (id t) v (completed t) (created_at t) (category t) (priority t)
         (due_date t) (notes t).

(** ** Shared objects

    Task objects and arrays of tasks are shared by reference: the template
    hands a task object of the rendered list to [toggleTodo], and
    [filteredTodos] starts from the very array [todos.value] holds. Both
    live in a store, addressed by position; nothing is ever freed. *)

Definition oref := nat.
Definition aref := nat.

Record Heap := mkHeap {
  objects : list Todo;
  arrays : list (list oref)
}.

Definition deref (h : Heap) (r : oref) : option Todo := objects h !! r.

Definition elements (h : Heap) (a : aref) : list oref :=
  default [] (arrays h !! a).

Definition new_object (t : Todo) (h : Heap) : oref * Heap :=
  (length (objects h), mkHeap (objects h ++ [t]) (arrays h)).

Definition new_array (l : list oref) (h : Heap) : aref * Heap :=
  (length (arrays h), mkHeap (objects h) (arrays h ++ [l])).

Definition write_object (r : oref) (t : Todo) (h : Heap) : Heap :=
  mkHeap (<[r := t]> (objects h)) (arrays h).

Definition write_array (a : aref) (l : list oref) (h : Heap) : Heap :=
  mkHeap (objects h) (<[a := l]> (arrays h)).

(** A callback [todo => ...] run on the object behind a reference. *)
Definition on_object (h : Heap) (p : Todo -> bool) (r : oref) : bool :=
  match deref h r with
  | Some t => p t
  | None => false
  end.

(** Allocation and in-place update thread the store through a computation. *)
Definition Alloc (A : Type) : Type := Heap -> A * Heap.

Definition ret {A} (x : A) : Alloc A := fun h => (x, h).

Definition bind {A B} (m : Alloc A) (k : A -> Alloc B) : Alloc B :=
  fun h => let (x, h') := m h in k x h'.

Notation "'let*' x ':=' m 'in' k" := (bind m (fun x => k))
  (at level 10, x name, m at level 200, k at level 200, only parsing).

(** ** [Array.prototype.sort]

    The comparator's answer is a number or [NaN]; SortCompare reads [NaN]
    as [+0]. The language requires the sort to be stable; the model is the
    stable insertion sort, which places an element before the first one it
    does not compare greater than. *)
Definition SortCompare (v : option Z) : Z := default 0 v.

Section StableSort.
Context {A : Type} (cmp : A -> A -> Z).

Fixpoint insert (x : A) (l : list A) : list A :=
  match l with
  | [] => [x]
  | y :: l' => if cmp x y <=? 0 then x :: l else y :: insert x l'
  end.

Definition stable_sort (l : list A) : list A := foldr insert [] l.
End StableSort.

(** The comparator of a callback [(a, b) => ...] on two references. *)
Definition on_objects (h : Heap) (f : Todo -> Todo -> option Z)
    (r1 r2 : oref) : Z :=
  match deref h r1, deref h r2 with
  | Some a, Some b => SortCompare (f a b)
  | _, _ => 0
  end.

(** [a.filter(p)] allocates the array of the kept elements. *)
Definition Array_filter (p : Todo -> bool) (a : aref) : Alloc aref :=
  fun h => new_array (filter (on_object h p) (elements h a)) h.

(** [a.sort(f)] reorders [a] itself and returns it. *)
Definition Array_sort (f : Todo -> Todo -> option Z) (a : aref) : Alloc aref :=
  fun h => (a, write_array a (stable_sort (on_objects h f) (elements h a)) h).

(** ** Component state: the [ref]s of the script *)

Record Form := mkForm {
  newTask : jsstring;
  newCategory : jsstring;
  newPriority : Priority;
  newDueDate : jsstring;
  newNotes : jsstring
}.

Record Filters := mkFilters {
  searchQuery : jsstring;
  selectedFilter : jsstring;
  selectedCategory : jsstring;
  selectedPriority : jsstring
}.

(** [editingTodo] and [editText]: [None] is [null], the idle state. *)
Record Edit := mkEdit {
  editingTodo : option Z;
  editText : jsstring
}.

(** [todos] is the array [todos.value] currently holds; [console] collects
    the labels passed to [console.error], newest first. *)
Record State := mkState {
  heap : Heap;
  todos : aref;
  form : Form;
  filters : Filters;
  edit : Edit;
  console : list jsstring
}.

Definition with_heap (h : Heap) (st : State) : State :=
  mkState h (todos st) (form st) (filters st) (edit st) (console st).

Definition with_todos (a : aref) (st : State) : State :=
  mkState (heap st) a (form st) (filters st) (edit st) (console st).

Definition with_form (f : Form) (st : State) : State :=
  mkState (heap st) (todos st) f (filters st) (edit st) (console st).

Definition with_edit (e : Edit) (st : State) : State :=
  mkState (heap st) (todos st) (form st) (filters st) e (console st).

Definition console_error (label : jsstring) (st : State) : State :=
  mkState (heap st) (todos st) (form st) (filters st) (edit st)
          (label :: console st).

(** The task references of the collection, in stored order. *)
Definition collection (st : State) : list oref := elements (heap st) (todos st).

(** ** The derived view *)

Definition priorityOrder (p : Priority) : Z :=
  match p with
  | high => 3
  | medium => 2
  | low => 1
  end.

(** The comparator passed to [sort] in [filteredTodos]. Ranks are small
    integers and time values are integers of at most sixteen digits, so the
    doubles' differences have the sign of the exact ones, which is all the
    sort reads. *)
Definition compareFn `{Host} (a b : Todo) : option Z :=
  if negb (priorityOrder (priority a) =? priorityOrder (priority b)) then
    Some (priorityOrder (priority b) - priorityOrder (priority a))
  else
    match getTime (created_at b), getTime (created_at a) with
    | Some tb, Some ta => Some (tb - ta)
    | _, _ => None
    end.

(** The callback of the search filter, for the query [q]. *)
Definition matchesQuery `{Host} (q : jsstring) (todo : Todo) : bool :=
  includes (toLowerCase (task todo)) (toLowerCase q) ||
  match notes todo with
  | Some n => truthy n && includes (toLowerCase n) (toLowerCase q)
  | None => false
  end.

(** [!todo.completed && todo.due_date && todo.due_date < today]. *)
Definition overdueOn (today : jsstring) (todo : Todo) : bool :=
  negb (completed todo) &&
  match due_date todo with
  | Some d => truthy d && ltb d today
  | None => false
  end.

(** [new Date().toISOString().split('T')[0]], for the ISO string [now] the
    clock gives. *)
Definition todayOf (now : jsstring) : jsstring := splitHead 84 now.

(** The getter of the computed [filteredTodos]; [now] is what
    [new Date().toISOString()] yields when the getter runs. *)
Definition filteredTodos_body `{Host} (now : jsstring) (st : State)
    : Alloc aref :=
  let f := filters st in
  let filtered := todos st in
  let* filtered :=
    if truthy (searchQuery f)
    then Array_filter (matchesQuery (searchQuery f)) filtered
    else ret filtered in
  let* filtered :=
    if eqb (selectedFilter f) (lit "pending")
    then Array_filter (fun todo => negb (completed todo)) filtered
    else if eqb (selectedFilter f) (lit "completed")
    then Array_filter (fun todo => completed todo) filtered
    else if eqb (selectedFilter f) (lit "overdue")
    then Array_filter (overdueOn (todayOf now)) filtered
    else ret filtered in
  let* filtered :=
    if negb (eqb (selectedCategory f) (lit "all"))
    then Array_filter (fun todo => eqb (category todo) (selectedCategory f))
                      filtered
    else ret filtered in
  let* filtered :=
    if negb (eqb (selectedPriority f) (lit "all"))
    then Array_filter
           (fun todo => eqb (priorityName (priority todo)) (selectedPriority f))
           filtered
    else ret filtered in
  Array_sort compareFn filtered.

(** Reading [filteredTodos.value]: the array returned and the state after. *)
Definition filteredTodos `{Host} (now : jsstring) (st : State)
    : aref * State :=
  let (view, h) := filteredTodos_body now st (heap st) in
  (view, with_heap h st).

(** ** Aggregates

    Numbers are IEEE 754 doubles. [Math_round] is [Math.round]: the nearest
    integer, a tie going towards plus infinity; a double whose exponent is
    not negative is already an integer. *)
Definition Math_round (x : float) : float :=
  match Prim2SF x with
  | S754_finite s m e =>
      if 0 <=? e then x
      else
        let r := ((if s then Z.neg m else Z.pos m) + 2 ^ (- e - 1)) / 2 ^ (- e) in
        if r =? 0 then (if s then (- 0)%float else 0%float)
        else if 0 <? r then PrimFloat.of_uint63 (Uint63.of_Z r)
        else (- PrimFloat.of_uint63 (Uint63.of_Z (- r)))%float
  | _ => x
  end.

(** An array's [length] as a number; lengths stay far below [2 ^ 53], where
    the conversion is exact. *)
Definition length_number {A} (l : list A) : float :=
  PrimFloat.of_uint63 (Uint63.of_Z (Z.of_nat (length l))).

Definition completionPercentage (st : State) : float :=
  let all := collection st in
  if Nat.eqb (length all) 0 then 0%float
  else
    Math_round
      (length_number (filter (on_object (heap st) completed) all)
       / length_number all * 100)%float.

(** ** Round trips to the store

    A request is what one of the five intents sends; a reply is what the
    awaited call gives back: [Data d] is [{ data: d, error: null }] (the
    insert answers with the created row, [data[0]]; [None] is [data: null]),
    [Error] is an [error] that is set, [Rejected] is a rejected promise,
    which the [catch] block receives. *)

Record NewTodo := mkNewTodo {
  new_task : jsstring;
  new_completed : bool;
  new_category : jsstring;
  new_priority : Priority;
  new_due_date : option jsstring;
  new_notes : option jsstring
}.

Inductive Request :=
| Insert (todoData : NewTodo)
| UpdateCompleted (value : bool) (eq_id : Z)
| UpdateTask (value : jsstring) (eq_id : Z)
| Delete (eq_id : Z)
| DeleteIn (in_ids : list Z).

Inductive Reply :=
| Data (data : option Todo)
| Error
| Rejected.

(** What an intent still has to run after its [await], with the variables
    it closed over. [saveEdit] closes over nothing: it reads [editingTodo]
    and [editText] again when it resumes. *)
Inductive Pending :=
| addTodo_k
| toggleTodo_k (todo : oref)
| deleteTodo_k (id : Z)
| saveEdit_k
| clearCompleted_k.

(** [x || null] on a string. *)
Definition or_null (s : jsstring) : option jsstring :=
  if truthy s then Some s else None.

Definition addTodo (st : State) : option (Request * Pending) :=
  let f := form st in
  if negb (truthy (trim (newTask f))) then None
  else
    Some (Insert (mkNewTodo (trim (newTask f)) false (newCategory f)
                            (newPriority f) (or_null (newDueDate f))
                            (or_null (trim (newNotes f)))),
          addTodo_k).

Definition resetForm (st : State) : State :=
  with_form (mkForm [] (lit "personal") medium [] []) st.

(** The caller passes a task object of the rendered list; a reference that
    denotes no object has no counterpart in the program. *)
Definition toggleTodo (todo : oref) (st : State) : option (Request * Pending) :=
  match deref (heap st) todo with
  | Some t => Some (UpdateCompleted (negb (completed t)) (id t), toggleTodo_k todo)
  | None => None
  end.

Definition deleteTodo (id : Z) (st : State) : option (Request * Pending) :=
  Some (Delete id, deleteTodo_k id).

Definition startEdit (todo : oref) (st : State) : State :=
  match deref (heap st) todo with
  | Some t => with_edit (mkEdit (Some (id t)) (task t)) st
  | None => st
  end.

Definition cancelEdit (st : State) : State :=
  with_edit (mkEdit None []) st.

(** [!editingTodo.value]: [null] and the number [0] are falsy. *)
Definition not_editing (e : Edit) : bool :=
  match editingTodo e with
  | None => true
  | Some n => n =? 0
  end.

Definition saveEdit (st : State) : option (Request * Pending) :=
  let e := edit st in
  if not_editing e || negb (truthy (trim (editText e))) then None
  else
    match editingTodo e with
    | Some n => Some (UpdateTask (trim (editText e)) n, saveEdit_k)
    | None => None
    end.

(** [todos.value.find(t => t.id === editingTodo.value)]. *)
Definition find_editing (st : State) : option oref :=
  List.find
    (on_object (heap st)
       (fun t => match editingTodo (edit st) with
                 | Some n => id t =? n
                 | None => false
                 end))
    (collection st).

(** The ids of [todos.value.filter(t => t.completed).map(t => t.id)]. *)
Definition completedIds (st : State) : list Z :=
  omap (fun r => id <$> deref (heap st) r)
       (filter (on_object (heap st) completed) (collection st)).

Definition clearCompleted (st : State) : option (Request * Pending) :=
  Some (DeleteIn (completedIds st), clearCompleted_k).

(** [todos.value = todos.value.filter(p)]. *)
Definition assign_filtered (p : Todo -> bool) (st : State) : State :=
  let (a, h) := Array_filter p (todos st) (heap st) in
  with_todos a (with_heap h st).

(** The rest of an intent, run on the state the reply finds. *)
Definition resume (k : Pending) (reply : Reply) (st : State) : State :=
  match k, reply with
  | addTodo_k, Data (Some row) =>
      let (r, h) := new_object row (heap st) in
      resetForm
        (with_heap (write_array (todos st) (r :: elements h (todos st)) h) st)
  | addTodo_k, Data None => console_error (lit "Error:") st
  | addTodo_k, Error => console_error (lit "Error adding todo:") st
  | toggleTodo_k todo, Data _ =>
      match deref (heap st) todo with
      | Some t =>
          with_heap
            (write_object todo (set_completed (negb (completed t)) t) (heap st))
            st
      | None => st
      end
  | toggleTodo_k _, Error => console_error (lit "Error updating todo:") st
  | deleteTodo_k id0, Data _ =>
      assign_filtered (fun todo => negb (id todo =? id0)) st
  | deleteTodo_k _, Error => console_error (lit "Error deleting todo:") st
  | saveEdit_k, Data _ =>
      let st1 :=
        match find_editing st with
        | Some todo =>
            match deref (heap st) todo with
            | Some t =>
                with_heap
                  (write_object todo (set_task (trim (editText (edit st))) t)
                                (heap st))
                  st
            | None => st
            end
        | None => st
        end in
      cancelEdit st1
  | saveEdit_k, Error => console_error (lit "Error updating todo:") st
  | clearCompleted_k, Data _ =>
      assign_filtered (fun t => negb (completed t)) st
  | clearCompleted_k, Error => console_error (lit "Error clearing completed:") st
  | _, Rejected => console_error (lit "Error:") st
  end.

(** ** The event loop

    One thread runs the handlers; between an intent's request and its reply
    any other handler may run, and replies arrive in any order. *)

Inductive Intent :=
| AddTodo
| ToggleTodo (todo : oref)
| DeleteTodo (id : Z)
| SaveEdit
| ClearCompleted.

Definition issue (i : Intent) (st : State) : option (Request * Pending) :=
  match i with
  | AddTodo => addTodo st
  | ToggleTodo todo => toggleTodo todo st
  | DeleteTodo id0 => deleteTodo id0 st
  | SaveEdit => saveEdit st
  | ClearCompleted => clearCompleted st
  end.

Inductive Event :=
| Invoke (i : Intent)
| StartEdit (todo : oref)
| CancelEdit
| TypeEdit (text : jsstring)
| Arrive (n : nat) (reply : Reply).

(** The state and the round trips in flight, oldest first. [Arrive n reply]
    delivers the reply of the [n]-th of them. *)
Definition Config : Type := State * list (Request * Pending).

Definition step (c : Config) (e : Event) : Config :=
  let (st, flight) := c in
  match e with
  | Invoke i =>
      match issue i st with
      | Some rk => (st, flight ++ [rk])
      | None => c
      end
  | StartEdit todo => (startEdit todo st, flight)
  | CancelEdit => (cancelEdit st, flight)
  | TypeEdit text => (with_edit (mkEdit (editingTodo (edit st)) text) st, flight)
  | Arrive n reply =>
      match flight !! n with
      | Some (_, k) => (resume k reply st, delete n flight)
      | None => c
      end
  end.

Definition run (c : Config) (es : list Event) : Config := foldl step c es.

(** The requests sent so far that are still awaiting their reply. *)
Definition in_flight (c : Config) : list Request := fst <$> snd c.

(** ** A concrete host for closed examples

    Lower-casing of the ASCII letters, and timestamps of the one layout
    [YYYY-MM-DDTHH:MM:SSZ], read as milliseconds since the epoch. On ASCII
    strings and on timestamps of this layout it answers as the language's
    own [toLowerCase] and [Date] do. *)
Module SampleHost.

Definition lower_unit (c : N) : N :=
  if ((65 <=? c) && (c <=? 90))%N then (c + 32)%N else c.

Definition digit (c : N) : option Z :=
  if ((48 <=? c) && (c <=? 57))%N then Some (Z.of_N c - 48) else None.

Definition two_digits (a b : N) : option Z :=
  match digit a, digit b with
  | Some x, Some y => Some (10 * x + y)
  | _, _ => None
  end.

(** Days from 1970-01-01 to the civil date [y]-[m]-[d]. *)
Definition days_from_civil (y m d : Z) : Z :=
  let y' := if m <=? 2 then y - 1 else y in
  let era := y' / 400 in
  let yoe := y' - era * 400 in
  let doy := (153 * (if 2 <? m then m - 3 else m + 9) + 2) / 5 + d - 1 in
  let doe := yoe * 365 + yoe / 4 - yoe / 100 + doy in
  era * 146097 + doe - 719468.

Definition utc_millis (s : jsstring) : option Z :=
  match s with
  | [y1; y2; y3; y4; 45; m1; m2; 45; d1; d2; 84;
     h1; h2; 58; i1; i2; 58; s1; s2; 90]%N =>
      match two_digits y1 y2, two_digits y3 y4, two_digits m1 m2,
            two_digits d1 d2, two_digits h1 h2, two_digits i1 i2,
            two_digits s1 s2 with
      | Some yh, Some yl, Some m, Some d, Some h, Some i, Some sec =>
          if (1 <=? m) && (m <=? 12) && (1 <=? d) && (d <=? 31)
             && (h <=? 23) && (i <=? 59) && (sec <=? 59)
          then Some ((((days_from_civil (100 * yh + yl) m d * 24 + h) * 60 + i)
                      * 60 + sec) * 1000)
          else None
      | _, _, _, _, _, _, _ => None
      end
  | _ => None
  end.

Definition host : Host :=
  {| toLowerCase := map lower_unit; getTime := utc_millis |}.

End SampleHost.

(** ** Vocabulary of the statements *)

(** *** Runs *)

(** The state an intent leaves when it is invoked on [st] with nothing else
    in flight and its round trip is answered by [reply] before any other
    handler runs. *)
Definition outcome (i : Intent) (reply : Reply) (st : State) : State :=
  fst (run (st, []) [Invoke i; Arrive 0%nat reply]).

(** Everything of the state but the diagnostic log is the same. *)
Definition same_but_console (st st' : State) : Prop :=
  heap st' = heap st /\ todos st' = todos st /\ form st' = form st /\
  filters st' = filters st /\ edit st' = edit st.

(** The ids of the tasks of the collection, in stored order. *)
Definition ids (st : State) : list Z :=
  omap (fun r => id <$> deref (heap st) r) (collection st).

(** *** The edit sub-state machine *)

Definition Idle (st : State) : Prop := edit st = mkEdit None [].

Definition Editing (st : State) (n : Z) (draft : jsstring) : Prop :=
  edit st = mkEdit (Some n) draft.

(** The statement that saving returns to [Idle] whatever the reply. *)
Definition save_idles_whatever_the_reply : Prop :=
  forall st n draft reply,
    Editing st n draft -> n <> 0 -> trim draft <> [] ->
    saveEdit st = Some (UpdateTask (trim draft) n, saveEdit_k) /\
    Idle (outcome SaveEdit reply st).

(** *** The filter predicates *)

(** The search predicate spelled out: the lower-cased title, or the
    lower-cased non-empty notes, contain the lower-cased query. *)
Definition text_matches `{Host} (q : jsstring) (t : Todo) : Prop :=
  includes (toLowerCase (task t)) (toLowerCase q) = true \/
  exists n, notes t = Some n /\ n <> [] /\
            includes (toLowerCase n) (toLowerCase q) = true.

(** Not completed, with a due date, and the due date before [today]; both
    are ISO date strings, compared as strings. *)
Definition is_overdue (today : jsstring) (t : Todo) : Prop :=
  completed t = false /\
  exists d, due_date t = Some d /\ d <> [] /\ ltb d today = true.

(** The status, category and priority predicates the filter settings [f]
    activate. *)
Definition passes_selects (now : jsstring) (f : Filters) (t : Todo) : Prop :=
  (selectedFilter f = lit "pending" -> completed t = false) /\
  (selectedFilter f = lit "completed" -> completed t = true) /\
  (selectedFilter f = lit "overdue" -> is_overdue (todayOf now) t) /\
  (selectedCategory f <> lit "all" -> category t = selectedCategory f) /\
  (selectedPriority f <> lit "all" ->
   priorityName (priority t) = selectedPriority f).

(** The conjunction of the active predicates, the text query being active
    when it is not the empty string. *)
Definition passes `{Host} (now : jsstring) (f : Filters) (t : Todo) : Prop :=
  (searchQuery f <> [] -> text_matches (searchQuery f) t) /\
  passes_selects now f t.

(** The same with the text query active only when it is non-empty after
    trimming. *)
Definition passes_trimmed `{Host} (now : jsstring) (f : Filters) (t : Todo)
    : Prop :=
  (trim (searchQuery f) <> [] -> text_matches (searchQuery f) t) /\
  passes_selects now f t.

(** The array read from [filteredTodos], as the references it holds. *)
Definition view `{Host} (now : jsstring) (st : State) : list oref :=
  elements (heap (snd (filteredTodos now st))) (fst (filteredTodos now st)).

(** The statement that the view holds the tasks passing the predicates,
    the text query counting only when it is non-empty after trimming. *)
Definition view_holds_what_passes_trimmed : Prop :=
  forall (H : Host) (now : jsstring) (st : State) (r : oref) (t : Todo),
    deref (heap st) r = Some t ->
    (r ∈ view now st <-> r ∈ collection st /\ passes_trimmed now (filters st) t).

(** [n] written with [w] decimal digits, most significant first. *)
Fixpoint decimal (w : nat) (n : N) : jsstring :=
  match w with
  | O => []
  | S w' => decimal w' (n / 10) ++ [(48 + n mod 10)%N]
  end.

(** The ISO date string [YYYY-MM-DD] of a calendar date. *)
Definition isoDate (y m d : N) : jsstring :=
  decimal 4 y ++ [45%N] ++ decimal 2 m ++ [45%N] ++ decimal 2 d.

(** *** The stages of the getter *)

(** Some filter is set, so that the getter calls [filter] at least once. *)
Definition filtering (f : Filters) : bool :=
  truthy (searchQuery f)
  || eqb (selectedFilter f) (lit "pending")
  || eqb (selectedFilter f) (lit "completed")
  || eqb (selectedFilter f) (lit "overdue")
  || negb (eqb (selectedCategory f) (lit "all"))
  || negb (eqb (selectedPriority f) (lit "all")).

(** A filter stage that may be switched off. *)
Definition when (c : bool) (q : Todo -> bool) : Todo -> bool :=
  if c then q else fun _ => true.

(** The status stage: whether it filters, and by what. *)
Definition statusActive (f : Filters) : bool :=
  eqb (selectedFilter f) (lit "pending")
  || eqb (selectedFilter f) (lit "completed")
  || eqb (selectedFilter f) (lit "overdue").

Definition statusPred (now : jsstring) (f : Filters) : Todo -> bool :=
  if eqb (selectedFilter f) (lit "pending")
  then fun todo => negb (completed todo)
  else if eqb (selectedFilter f) (lit "completed")
  then fun todo => completed todo
  else if eqb (selectedFilter f) (lit "overdue")
  then overdueOn (todayOf now)
  else fun _ => true.

(** The conjunction of the callbacks the getter hands to [filter]. *)
Definition selects `{Host} (now : jsstring) (f : Filters) (t : Todo) : bool :=
  when (truthy (searchQuery f)) (matchesQuery (searchQuery f)) t
  && statusPred now f t
  && when (negb (eqb (selectedCategory f) (lit "all")))
          (fun todo => eqb (category todo) (selectedCategory f)) t
  && when (negb (eqb (selectedPriority f) (lit "all")))
          (fun todo => eqb (priorityName (priority todo)) (selectedPriority f))
          t.

(** What the getter has built after some of its stages, started on the
    store [h0] and the array [a0]: [p] is the conjunction of the callbacks
    applied so far, [fresh] tells whether [filter] has been called. *)
Definition staged (h0 : Heap) (a0 : aref) (p : Todo -> bool) (fresh : bool)
    (r : aref * Heap) : Prop :=
  let (a, h) := r in
  objects h = objects h0 /\
  (exists ext, arrays h = arrays h0 ++ ext) /\
  if fresh then
    (length (arrays h0) <= a)%nat /\
    elements h a = filter (on_object h0 p) (elements h0 a0)
  else a = a0 /\ h = h0 /\ forall t, p t = true.

(** *** Order *)

(** [x] may stand before [y]: the comparator does not answer a positive
    number. *)
Definition before {A} (cmp : A -> A -> Z) (x y : A) : Prop := cmp x y <= 0.

(** Each of [x] and [y] may stand before the other. *)
Definition tied {A} (cmp : A -> A -> Z) (x y : A) : bool :=
  (cmp x y <=? 0) && (cmp y x <=? 0).

(** *** Percentages *)

(** The percentage the aggregate shows for [c] completed tasks of [n]. *)
Definition percentage (c n : nat) : float :=
  Math_round (PrimFloat.of_uint63 (Uint63.of_Z (Z.of_nat c))
              / PrimFloat.of_uint63 (Uint63.of_Z (Z.of_nat n)) * 100)%float.

(** [round(p / q)] in exact arithmetic, a tie going up, for [q > 0]. *)
Definition round_ratio (p q : Z) : Z := (2 * p + q) / (2 * q).

(** Closed states for the examples. *)
Module Examples.

Definition a_task (n : Z) (title : string) (done : bool) (p : Priority)
    (created due : string) : Todo :=
  mkTodo n (lit title) done (lit created) (lit "personal") p
         (or_null (lit due)) None.

Definition no_filters : Filters :=
  mkFilters [] (lit "all") (lit "all") (lit "all").

Definition blank_form : Form := mkForm [] (lit "personal") medium [] [].

(** The state holding the tasks [ts], in this order, in array [0]. *)
Definition holding (ts : list Todo) (f : Filters) (e : Edit) : State :=
  mkState (mkHeap ts [seq 0 (length ts)]) 0%nat blank_form f e [].

Definition two_tasks : list Todo :=
  [ a_task 1 "A" false high "2025-06-10T08:00:00Z" "2025-06-12";
    a_task 2 "B" false low "2025-06-11T08:00:00Z" "2025-06-14" ].

(** Two tasks as the store returns them, newest first: the newer one of
    low priority, the older one of high priority. *)
Definition newest_first : list Todo :=
  [ a_task 2 "B" false low "2025-06-11T08:00:00Z" "2025-06-14";
    a_task 1 "A" false high "2025-06-10T08:00:00Z" "2025-06-12" ].

(** Task 1 completed, task 2 pending. *)
Definition one_done : list Todo :=
  [ a_task 1 "A" true high "2025-06-10T08:00:00Z" "2025-06-12";
    a_task 2 "B" false low "2025-06-11T08:00:00Z" "2025-06-14" ].

(** [n] tasks with ids [1..n], the first [k] of them completed. *)
Definition some_done (k n : nat) : list Todo :=
  map (fun i => a_task (Z.of_nat i) "T" (i <=? k)%nat medium
                       "2025-06-10T08:00:00Z" "")
      (seq 1 n).

End Examples.

(** ** Further parts of the script *)

(** *** The aggregates of the header *)

(** [todo.due_date === today]. *)
Definition dueOn (today : jsstring) (todo : Todo) : bool :=
  match due_date todo with
  | Some d => eqb d today
  | None => false
  end.

(** The computed [todayTasks] and [overdueTasks]: each a fresh array, of
    which the template reads the [length] only. *)
Definition todayTasks (now : jsstring) (st : State) : list oref :=
  filter (on_object (heap st) (dueOn (todayOf now))) (collection st).

Definition overdueTasks (now : jsstring) (st : State) : list oref :=
  filter (on_object (heap st) (overdueOn (todayOf now))) (collection st).

(** [isOverdue(todo)], which marks a row of the list. *)
Definition isOverdue (now : jsstring) (todo : Todo) : bool :=
  match due_date todo with
  | Some d =>
      if negb (truthy d) || completed todo then false
      else ltb d (todayOf now)
  | None => false
  end.

(** The counters of the template: [todos.filter(t => !t.completed).length]
    and [todos.filter(t => t.completed).length]. *)
Definition pendingCount (st : State) : nat :=
  length (filter (on_object (heap st) (fun t => negb (completed t)))
                 (collection st)).

Definition completedCount (st : State) : nat :=
  length (filter (on_object (heap st) completed) (collection st)).

(** [:disabled="!todos.some(t => t.completed)"] on the clear button. *)
Definition clearDisabled (st : State) : bool :=
  negb (existsb (on_object (heap st) completed) (collection st)).

(** *** Colours

    The [value] and [color] of the entries of [categories] and
    [priorities]; the labels are not read by the colour look-ups. *)
Definition categories : list (jsstring * jsstring) :=
  [ (lit "personal", lit "#4ecdc4"); (lit "work", lit "#45b7d1");
    (lit "health", lit "#96ceb4"); (lit "shopping", lit "#ffeaa7");
    (lit "study", lit "#dda0dd"); (lit "family", lit "#ff7675") ].

Definition priorities : list (jsstring * jsstring) :=
  [ (lit "low", lit "#74b9ff"); (lit "medium", lit "#fdcb6e");
    (lit "high", lit "#e17055") ].

(** [table.find(e => e.value === v)?.color || fallback]. *)
Definition color_or (table : list (jsstring * jsstring)) (v fallback : jsstring)
    : jsstring :=
  match List.find (fun e => eqb (fst e) v) table with
  | Some e => if truthy (snd e) then snd e else fallback
  | None => fallback
  end.

Definition getCategoryColor (category : jsstring) : jsstring :=
  color_or categories category (lit "#4ecdc4").

Definition getPriorityColor (priority : jsstring) : jsstring :=
  color_or priorities priority (lit "#fdcb6e").

(** *** Loading the collection

    [fetchTodos] and its [loading] flag. A page is the state of the
    component together with that flag. *)
Record Page := mkPage {
  component : State;
  loading : bool
}.

(** The reply to the select: [Fetched d] is [{ data: d, error: null }]. *)
Inductive FetchReply :=
| Fetched (data : option (list Todo))
| FetchError
| FetchRejected.

(** Up to the [await]: the flag is raised and the select is sent. *)
Definition fetchTodos (p : Page) : Page := mkPage (component p) true.

(** [todos.value = rows]: the rows are new objects, in a new array. *)
Definition assign_rows (rows : list Todo) (st : State) : State :=
  let h := heap st in
  with_todos (length (arrays h))
    (with_heap
       (mkHeap (objects h ++ rows)
               (arrays h ++ [seq (length (objects h)) (length rows)]))
       st).

(** After the [await]; the [finally] block lowers the flag. *)
Definition fetchTodos_resume (reply : FetchReply) (p : Page) : Page :=
  let st :=
    match reply with
    | Fetched (Some rows) => assign_rows rows (component p)
    | Fetched None => assign_rows [] (component p)
    | FetchError => console_error (lit "Error fetching todos:") (component p)
    | FetchRejected => console_error (lit "Error:") (component p)
    end in
  mkPage st false.

(** The component as it is set up: an empty collection, the form and the
    filters at their defaults, no edit, not loading. *)
Definition initial : Page :=
  mkPage (mkState (mkHeap [] [[]]) 0%nat
                  (mkForm [] (lit "personal") medium [] [])
                  (mkFilters [] (lit "all") (lit "all") (lit "all"))
                  (mkEdit None []) [])
         false.

(** The template shows the spinner while [loading], else the list, and
    under it the empty state when the view has no row. *)
Definition shows_empty_state `{Host} (now : jsstring) (p : Page) : bool :=
  negb (loading p) && Nat.eqb (length (view now (component p))) 0.

(** *** Well-formed states *)

(** [todos.value] is an array of the store and each of its elements is an
    object of the store. *)
Definition well_formed (st : State) : Prop :=
  (todos st < length (arrays (heap st)))%nat /\
  forall r, r ∈ collection st -> is_Some (deref (heap st) r).

(** The one reply that adds a task: a create confirmed with a row. *)
Definition creates (k : Pending) (reply : Reply) : bool :=
  match k, reply with
  | addTodo_k, Data (Some _) => true
  | _, _ => false
  end.

(** * Properties *)

(** ** Strings *)

Lemma startsWith_spec s p :
  startsWith s p = true <-> exists post, s = p ++ post.
Proof.
  revert s. induction p as [|x p IH]; intros s.
  - split; [by exists s|by destruct s].
  - destruct s as [|y s]; simpl.
    + split; [done|]. by intros [post Hpost].
    + rewrite andb_true_iff, N.eqb_eq, IH. split.
      * intros [-> [post ->]]. by exists post.
      * intros [post [= -> ->]]. split; [done|]. by exists post.
Qed.

(** [includes s q] holds exactly when [q] is a contiguous part of [s]. *)
Lemma includes_spec s q :
  includes s q = true <-> exists pre post, s = pre ++ q ++ post.
Proof.
  induction s as [|c s IH].
  - cbn [includes]. rewrite orb_false_r, startsWith_spec. split.
    + intros [post Hpost]. by exists [], post.
    + intros (pre & post & Hs). symmetry in Hs.
      apply app_eq_nil in Hs as [-> Hs]. by exists post.
  - cbn [includes]. rewrite orb_true_iff, startsWith_spec, IH. split.
    + intros [[post Hpost] | (pre & post & Hs)].
      * by exists [], post.
      * exists (c :: pre), post. by rewrite Hs.
    + intros (pre & post & Hs). destruct pre as [|c' pre].
      * left. by exists post.
      * right. injection Hs as -> ->. by exists pre, post.
Qed.

Lemma ltb_irrefl a : ltb a a = false.
Proof. induction a as [|x a IH]; simpl; [done|]. by rewrite N.ltb_irrefl. Qed.

Lemma ltb_app a b s t :
  length a = length b ->
  ltb (a ++ s) (b ++ t)
  = if ltb a b then true else if ltb b a then false else ltb s t.
Proof.
  revert b. induction a as [|x a IH]; intros [|y b] Hlen; try done.
  simpl in Hlen. injection Hlen as Hlen. simpl.
  destruct (N.ltb_spec x y) as [Hxy|Hxy]; [done|].
  destruct (N.ltb_spec y x) as [Hyx|Hyx]; [done|]. by apply IH.
Qed.

Lemma ltb_singleton x y : ltb [x] [y] = (x <? y)%N.
Proof.
  simpl. destruct (N.ltb_spec x y); [done|]. by destruct (N.ltb_spec y x).
Qed.

Lemma length_decimal w n : length (decimal w n) = w.
Proof.
  revert n. induction w as [|w IH]; intros n; simpl; [done|].
  rewrite length_app, IH. simpl. lia.
Qed.

(** Numbers written with the same number of digits compare as strings the
    way they compare as numbers. *)
Lemma ltb_decimal w n m :
  (n < 10 ^ N.of_nat w)%N -> (m < 10 ^ N.of_nat w)%N ->
  ltb (decimal w n) (decimal w m) = (n <? m)%N.
Proof.
  revert n m. induction w as [|w IH]; intros n m Hn Hm.
  - change (10 ^ N.of_nat 0)%N with 1%N in Hn, Hm.
    simpl. symmetry. apply N.ltb_ge. lia.
  - rewrite Nat2N.inj_succ, N.pow_succ_r' in Hn, Hm.
    pose proof (N.div_mod n 10 ltac:(lia)) as Hdn.
    pose proof (N.div_mod m 10 ltac:(lia)) as Hdm.
    pose proof (N.mod_lt n 10 ltac:(lia)) as Hmn.
    pose proof (N.mod_lt m 10 ltac:(lia)) as Hmm.
    assert (Hqn : (n / 10 < 10 ^ N.of_nat w)%N)
      by (apply N.Div0.div_lt_upper_bound; lia).
    assert (Hqm : (m / 10 < 10 ^ N.of_nat w)%N)
      by (apply N.Div0.div_lt_upper_bound; lia).
    cbn [decimal]. rewrite ltb_app by (by rewrite !length_decimal).
    rewrite !IH by done. rewrite ltb_singleton. clear IH Hqn Hqm.
    set (qn := (n / 10)%N) in *. set (qm := (m / 10)%N) in *.
    set (rn := (n mod 10)%N) in *. set (rm := (m mod 10)%N) in *.
    clearbody qn qm rn rm.
    destruct (N.ltb_spec qn qm), (N.ltb_spec qm qn),
             (N.ltb_spec (48 + rn) (48 + rm)), (N.ltb_spec n m);
      try done; exfalso; lia.
Qed.

(** On ISO date strings [<] is the order of the calendar. *)
Lemma ltb_isoDate y1 m1 d1 y2 m2 d2 :
  (y1 < 10000 -> y2 < 10000 -> m1 < 100 -> m2 < 100 -> d1 < 100 -> d2 < 100 ->
   (ltb (isoDate y1 m1 d1) (isoDate y2 m2 d2) = true <->
    y1 < y2 \/ y1 = y2 /\ (m1 < m2 \/ m1 = m2 /\ d1 < d2)))%N.
Proof.
  intros Hy1 Hy2 Hm1 Hm2 Hd1 Hd2. unfold isoDate.
  rewrite ltb_app by (by rewrite !length_decimal).
  rewrite (ltb_app [45%N] [45%N]) by done.
  rewrite ltb_app by (by rewrite !length_decimal).
  rewrite (ltb_app [45%N] [45%N]) by done.
  rewrite <- (app_nil_r (decimal 2 d1)), <- (app_nil_r (decimal 2 d2)).
  rewrite ltb_app by (by rewrite !length_decimal).
  rewrite !ltb_decimal by (simpl; lia).
  rewrite !ltb_singleton, !N.ltb_irrefl. cbn [ltb].
  destruct (N.ltb_spec y1 y2), (N.ltb_spec y2 y1), (N.ltb_spec m1 m2),
           (N.ltb_spec m2 m1), (N.ltb_spec d1 d2), (N.ltb_spec d2 d1);
    split; try done; lia.
Qed.

Lemma todayOf_iso (date rest : jsstring) :
  84%N ∉ date -> todayOf (date ++ 84%N :: rest) = date.
Proof.
  unfold todayOf. induction date as [|c date IH]; intros Hno; simpl.
  - done.
  - apply not_elem_of_cons in Hno as [Hc Hno].
    destruct (N.eqb_spec c 84); [done|]. by rewrite IH.
Qed.

Lemma decimal_digits w n c : c ∈ decimal w n -> (48 <= c <= 57)%N.
Proof.
  revert n. induction w as [|w IH]; intros n; simpl.
  - by intros ?%elem_of_nil.
  - intros [Hin | ->%list_elem_of_singleton]%elem_of_app; [by eapply IH|].
    pose proof (N.mod_lt n 10 ltac:(lia)) as Hlt.
    set (r := (n mod 10)%N) in *. clearbody r. lia.
Qed.

Lemma isoDate_no_T y m d : 84%N ∉ isoDate y m d.
Proof.
  unfold isoDate. rewrite !not_elem_of_app, !list_elem_of_singleton.
  repeat split; try (intros ?%decimal_digits; lia); lia.
Qed.

(** For a task that is not completed and due on the calendar date
    [y1]-[m1]-[d1], being overdue at the instant whose ISO string is
    [y2]-[m2]-[d2] followed by [T] and a time means that the due date comes
    before that date in the calendar. *)
Lemma is_overdue_by_calendar t y1 m1 d1 y2 m2 d2 time :
  (y1 < 10000 -> y2 < 10000 -> m1 < 100 -> m2 < 100 -> d1 < 100 -> d2 < 100 ->
   completed t = false -> due_date t = Some (isoDate y1 m1 d1) ->
   (is_overdue (todayOf (isoDate y2 m2 d2 ++ 84 :: time)) t <->
    y1 < y2 \/ y1 = y2 /\ (m1 < m2 \/ m1 = m2 /\ d1 < d2)))%N.
Proof.
  intros Hy1 Hy2 Hm1 Hm2 Hd1 Hd2 Hc Hdue.
  rewrite todayOf_iso by apply isoDate_no_T.
  rewrite <- (ltb_isoDate y1 m1 d1 y2 m2 d2) by done.
  unfold is_overdue. split.
  - by intros (_ & d & [= <-]%(eq_trans (eq_sym Hdue)) & _ & Hlt).
  - intros Hlt. split; [done|]. exists (isoDate y1 m1 d1).
    split; [done|]. split; [|done]. intros Hnil.
    apply (f_equal (@length N)) in Hnil. unfold isoDate in Hnil.
    rewrite !length_app, !length_decimal in Hnil. discriminate Hnil.
Qed.

(** ** Round trips that fail, and intents that are rejected locally *)

Lemma resume_Rejected k st :
  resume k Rejected st = console_error (lit "Error:") st.
Proof. by destruct k. Qed.

Lemma resume_Error k st :
  exists label, resume k Error st = console_error label st.
Proof. destruct k; simpl; eauto. Qed.

Lemma same_but_console_error label st :
  same_but_console st (console_error label st).
Proof. by repeat split. Qed.

Lemma outcome_resume i reply st req k :
  issue i st = Some (req, k) -> outcome i reply st = resume k reply st.
Proof. intros Hi. unfold outcome, run. simpl. by rewrite Hi. Qed.

Lemma outcome_rejected_locally i reply st :
  issue i st = None -> outcome i reply st = st.
Proof. intros Hi. unfold outcome, run. simpl. by rewrite Hi. Qed.

(** C7. Whatever the intent (create, toggle, rename, delete, bulk delete),
    a reply that reports an error, or a rejected call, changes nothing of
    the state on which the intent resumes but the diagnostic log; so an
    intent whose round trip fails leaves the task collection, and every
    task object, as they were when it was issued. *)
Theorem failed_round_trip_changes_nothing (i : Intent) (st : State) :
  (forall k st', same_but_console st' (resume k Error st') /\
                 same_but_console st' (resume k Rejected st')) /\
  same_but_console st (outcome i Error st) /\
  same_but_console st (outcome i Rejected st).
Proof.
  assert (Hk : forall k st', same_but_console st' (resume k Error st') /\
                             same_but_console st' (resume k Rejected st')).
  { intros k st'. split.
    - destruct (resume_Error k st') as [label ->].
      apply same_but_console_error.
    - rewrite resume_Rejected. apply same_but_console_error. }
  split; [exact Hk|].
  destruct (issue i st) as [[req k]|] eqn:Hi.
  - rewrite !(outcome_resume _ _ _ _ _ Hi). apply Hk.
  - rewrite !(outcome_rejected_locally _ _ _ Hi). by repeat split.
Qed.

Lemma truthy_nil_iff s : truthy s = false <-> s = [].
Proof. destruct s; simpl; split; congruence. Qed.

Lemma trimStart_nil_iff s :
  trimStart s = [] <-> forallb isWhiteSpace s = true.
Proof.
  induction s as [|c s IH]; simpl; [done|].
  destruct (isWhiteSpace c); simpl; [done|]. split; discriminate.
Qed.

Lemma trimStart_head s c s' : trimStart s = c :: s' -> isWhiteSpace c = false.
Proof.
  induction s as [|x s IH]; simpl; [done|].
  destruct (isWhiteSpace x) eqn:Hx; [done|]. by intros [= <- _].
Qed.

(** A string is empty after trimming exactly when it consists of white
    space only. *)
Lemma trim_nil_iff s : trim s = [] <-> forallb isWhiteSpace s = true.
Proof.
  unfold trim, trimEnd. split.
  - intros Hnil. apply (f_equal (@rev N)) in Hnil.
    rewrite rev_involutive in Hnil. simpl in Hnil.
    apply trimStart_nil_iff in Hnil.
    destruct (trimStart s) as [|c s'] eqn:Hs; [by apply trimStart_nil_iff|].
    apply trimStart_head in Hs. rewrite forallb_forall in Hnil.
    rewrite (Hnil c) in Hs; [done|]. apply in_rev. rewrite rev_involutive.
    by left.
  - intros Hs. apply trimStart_nil_iff in Hs. by rewrite Hs.
Qed.

(** C8. When the title typed in the form is empty after trimming, [addTodo]
    sends no request and the run leaves the state, and the requests in
    flight, as they were; when the draft of an edit is empty after
    trimming, [saveEdit] sends no request and leaves the state, hence every
    task's title, as it was. *)
Theorem empty_title_is_rejected_locally (st : State)
    (flight : list (Request * Pending)) :
  (trim (newTask (form st)) = [] ->
   addTodo st = None /\ run (st, flight) [Invoke AddTodo] = (st, flight)) /\
  (trim (editText (edit st)) = [] ->
   saveEdit st = None /\ run (st, flight) [Invoke SaveEdit] = (st, flight)).
Proof.
  split; intros Hempty.
  - assert (Hadd : addTodo st = None) by (unfold addTodo; by rewrite Hempty).
    split; [done|]. unfold run. simpl. by rewrite Hadd.
  - assert (Hsave : saveEdit st = None).
    { unfold saveEdit. rewrite Hempty. simpl. by rewrite orb_true_r. }
    split; [done|]. unfold run. simpl. by rewrite Hsave.
Qed.

Lemma empty_title_is_rejected_locally_witness :
  let st := mkState (mkHeap Examples.two_tasks [[0; 1]%nat]) 0%nat
              (mkForm (lit "   ") (lit "work") high [] [])
              Examples.no_filters (mkEdit (Some 1) (lit "  ")) [] in
  (addTodo st = None /\ run (st, []) [Invoke AddTodo] = (st, [])) /\
  (saveEdit st = None /\ run (st, []) [Invoke SaveEdit] = (st, [])).
Proof.
  intros st.
  pose proof (empty_title_is_rejected_locally st []) as [Hadd Hsave].
  split; [apply Hadd | apply Hsave]; reflexivity.
Defined.

(** ** Saving an edit *)

Lemma truthy_true s : s <> [] -> truthy s = true.
Proof. by destruct s. Qed.

Lemma saveEdit_sends st n draft :
  Editing st n draft -> n <> 0 -> trim draft <> [] ->
  saveEdit st = Some (UpdateTask (trim draft) n, saveEdit_k).
Proof.
  unfold Editing, saveEdit, not_editing. intros -> Hn Hdraft. simpl.
  rewrite (truthy_true _ Hdraft). by destruct (Z.eqb_spec n 0).
Qed.

(** Starting an edit on a task object enters [Editing] with its id and its
    title as the draft, whatever was being edited. *)
Lemma startEdit_Editing st todo t :
  deref (heap st) todo = Some t -> Editing (startEdit todo st) (id t) (task t).
Proof. unfold Editing, startEdit. by intros ->. Qed.

Lemma cancelEdit_Idle st : Idle (cancelEdit st).
Proof. done. Qed.

Lemma resume_saveEdit_idle d st : Idle (resume saveEdit_k (Data d) st).
Proof. unfold Idle. simpl. by destruct (find_editing st). Qed.

(** C4, as stated, fails: while task 1 is edited with the draft [A2], a
    save whose round trip reports an error leaves the edit open. *)
Lemma save_idles_whatever_the_reply_fails : ~ save_idles_whatever_the_reply.
Proof.
  intros Hclaim.
  pose (st := Examples.holding Examples.two_tasks Examples.no_filters
                (mkEdit (Some 1) (lit "A2"))).
  destruct (Hclaim st 1 (lit "A2") Error) as [_ Hidle]; [done..|].
  vm_compute in Hidle. discriminate Hidle.
Qed.

(** C4, amended. In [Editing n draft] with a draft that is not empty after
    trimming ([n] a store-assigned id, which is never [0]), saving sends the
    rename of task [n] to the trimmed draft; a reply without error returns
    the edit sub-state to [Idle], on whatever state it arrives; a reply
    with an error, or a rejected call, leaves it [Editing n draft]. *)
Theorem save_idles_on_success_only (st : State) (n : Z) (draft : jsstring) :
  Editing st n draft -> n <> 0 -> trim draft <> [] ->
  saveEdit st = Some (UpdateTask (trim draft) n, saveEdit_k) /\
  (forall d, Idle (outcome SaveEdit (Data d) st)) /\
  (forall d st', Idle (resume saveEdit_k (Data d) st')) /\
  Editing (outcome SaveEdit Error st) n draft /\
  Editing (outcome SaveEdit Rejected st) n draft.
Proof.
  intros Hed Hn Hdraft.
  pose proof (saveEdit_sends st n draft Hed Hn Hdraft) as Hsend.
  split; [exact Hsend|].
  split; [|split; [|split]].
  - intros d. rewrite (outcome_resume SaveEdit _ st _ _ Hsend).
    apply resume_saveEdit_idle.
  - intros d st'. apply resume_saveEdit_idle.
  - by rewrite (outcome_resume SaveEdit _ st _ _ Hsend).
  - by rewrite (outcome_resume SaveEdit _ st _ _ Hsend).
Qed.

Lemma save_idles_on_success_only_witness :
  let st := Examples.holding Examples.two_tasks Examples.no_filters
              (mkEdit (Some 1) (lit " A2 ")) in
  saveEdit st = Some (UpdateTask (lit "A2") 1, saveEdit_k) /\
  (forall d, Idle (outcome SaveEdit (Data d) st)) /\
  (forall d st', Idle (resume saveEdit_k (Data d) st')) /\
  Editing (outcome SaveEdit Error st) 1 (lit " A2 ") /\
  Editing (outcome SaveEdit Rejected st) 1 (lit " A2 ").
Proof.
  intros st.
  apply (save_idles_on_success_only st 1 (lit " A2 ")); [reflexivity| lia |].
  vm_compute. discriminate.
Defined.

Lemma find_on_object_None h p l :
  (forall r t, r ∈ l -> deref h r = Some t -> p t = false) ->
  List.find (on_object h p) l = None.
Proof.
  induction l as [|r l IH]; intros Hl; simpl; [done|].
  unfold on_object at 1. destruct (deref h r) as [t|] eqn:Hr.
  - rewrite (Hl r t); [|left|done]. apply IH.
    intros r' t' Hin. apply Hl. by right.
  - apply IH. intros r' t' Hin. apply Hl. by right.
Qed.

Lemma find_on_object_first h p l1 r l2 t :
  (forall r' t', r' ∈ l1 -> deref h r' = Some t' -> p t' = false) ->
  deref h r = Some t -> p t = true ->
  List.find (on_object h p) (l1 ++ r :: l2) = Some r.
Proof.
  intros Hl1 Hr Hp. induction l1 as [|r' l1 IH]; simpl.
  - unfold on_object. by rewrite Hr, Hp.
  - unfold on_object at 1. destruct (deref h r') as [t'|] eqn:Hr'.
    + rewrite (Hl1 r' t'); [|left|done]. apply IH.
      intros r0 t0 Hin. apply Hl1. by right.
    + apply IH. intros r0 t0 Hin. apply Hl1. by right.
Qed.

Lemma deref_write_object_eq h r t t' :
  deref h r = Some t -> deref (write_object r t' h) r = Some t'.
Proof.
  unfold deref, write_object. simpl. intros Hr.
  apply list_lookup_insert_eq. by eapply lookup_lt_Some.
Qed.

Lemma deref_write_object_ne h r r' t' :
  r' <> r -> deref (write_object r t' h) r' = deref h r'.
Proof.
  unfold deref, write_object. simpl. intros Hne.
  by apply list_lookup_insert_ne.
Qed.

(** C10. In [Editing n draft] ([n] not [0], the draft not empty after
    trimming) with no task of the collection bearing the id [n], saving
    still sends the rename; when the reply comes without error, the store,
    the collection, the form and the filters are as before, the edit
    sub-state is [Idle], and nothing is logged to the console. *)
Theorem save_of_absent_task (st : State) (n : Z) (draft : jsstring) :
  Editing st n draft -> n <> 0 -> trim draft <> [] ->
  (forall r t, r ∈ collection st -> deref (heap st) r = Some t -> id t <> n) ->
  saveEdit st = Some (UpdateTask (trim draft) n, saveEdit_k) /\
  forall d,
    let st' := outcome SaveEdit (Data d) st in
    heap st' = heap st /\ todos st' = todos st /\ form st' = form st /\
    filters st' = filters st /\ console st' = console st /\ Idle st'.
Proof.
  intros Hed Hn Hdraft Habsent.
  pose proof (saveEdit_sends st n draft Hed Hn Hdraft) as Hsend.
  split; [exact Hsend|]. intros d st'. subst st'.
  rewrite (outcome_resume SaveEdit _ st _ _ Hsend). simpl.
  assert (Hfind : find_editing st = None).
  { unfold find_editing. apply find_on_object_None.
    intros r t Hin Hr. rewrite Hed. simpl.
    apply Z.eqb_neq. by eapply Habsent. }
  rewrite Hfind. by repeat split.
Qed.

Lemma save_of_absent_task_witness :
  let st := Examples.holding Examples.two_tasks Examples.no_filters
              (mkEdit (Some 7) (lit "gone")) in
  saveEdit st = Some (UpdateTask (lit "gone") 7, saveEdit_k) /\
  forall d,
    let st' := outcome SaveEdit (Data d) st in
    heap st' = heap st /\ todos st' = todos st /\ form st' = form st /\
    filters st' = filters st /\ console st' = console st /\ Idle st'.
Proof.
  intros st.
  apply (save_of_absent_task st 7 (lit "gone")); [reflexivity|lia| |].
  - vm_compute. discriminate.
  - intros r t Hin Hr.
    assert (Hcases : r = 0%nat \/ r = 1%nat).
    { change (collection st) with [0; 1]%nat in Hin.
      apply elem_of_cons in Hin as [->|Hin]; [by left|].
      apply list_elem_of_singleton in Hin. by right. }
    destruct Hcases as [-> | ->]; vm_compute in Hr;
      inversion Hr; subst t; simpl; lia.
Defined.

(** C9. In [Editing n draft] ([n] not [0], the draft not empty after
    trimming), let [r] be the task of the collection with id [n] (the first
    one in stored order). Saving sends the rename, and when the reply comes
    without error the object [r] has the trimmed draft as its [task] and
    its seven other fields as before, every other task object is as
    before, and so are the stored arrays and the collection. *)
Theorem rename_updates_title_only (st : State) (n : Z) (draft : jsstring)
    (l1 l2 : list oref) (r : oref) (t : Todo) :
  Editing st n draft -> n <> 0 -> trim draft <> [] ->
  collection st = l1 ++ r :: l2 ->
  deref (heap st) r = Some t -> id t = n ->
  (forall r' t', r' ∈ l1 -> deref (heap st) r' = Some t' -> id t' <> n) ->
  saveEdit st = Some (UpdateTask (trim draft) n, saveEdit_k) /\
  forall d,
    let st' := outcome SaveEdit (Data d) st in
    (exists t1, deref (heap st') r = Some t1 /\
       task t1 = trim draft /\ id t1 = id t /\ completed t1 = completed t /\
       created_at t1 = created_at t /\ category t1 = category t /\
       priority t1 = priority t /\ due_date t1 = due_date t /\
       notes t1 = notes t) /\
    (forall r', r' <> r -> deref (heap st') r' = deref (heap st) r') /\
    arrays (heap st') = arrays (heap st) /\
    todos st' = todos st /\ collection st' = collection st.
Proof.
  intros Hed Hn Hdraft Hcoll Hr Hid Hfirst.
  pose proof (saveEdit_sends st n draft Hed Hn Hdraft) as Hsend.
  split; [exact Hsend|]. intros d st'. subst st'.
  rewrite (outcome_resume SaveEdit _ st _ _ Hsend). simpl.
  assert (Hfind : find_editing st = Some r).
  { unfold find_editing. rewrite Hcoll, Hed. simpl.
    apply find_on_object_first with t; [|done|by apply Z.eqb_eq].
    intros r' t' Hin Hr'. apply Z.eqb_neq. by eapply Hfirst. }
  rewrite Hfind, Hr. unfold Editing in Hed. rewrite Hed. simpl.
  split; [|split; [|by repeat split]].
  - exists (set_task (trim draft) t). split; [|by repeat split].
    by apply deref_write_object_eq with t.
  - intros r' Hne. by apply deref_write_object_ne.
Qed.

Lemma rename_updates_title_only_witness :
  let st := Examples.holding Examples.two_tasks Examples.no_filters
              (mkEdit (Some 2) (lit " B2 ")) in
  let t := Examples.a_task 2 "B" false low "2025-06-11T08:00:00Z" "2025-06-14" in
  saveEdit st = Some (UpdateTask (lit "B2") 2, saveEdit_k) /\
  forall d,
    let st' := outcome SaveEdit (Data d) st in
    (exists t1, deref (heap st') 1%nat = Some t1 /\
       task t1 = lit "B2" /\ id t1 = id t /\ completed t1 = completed t /\
       created_at t1 = created_at t /\ category t1 = category t /\
       priority t1 = priority t /\ due_date t1 = due_date t /\
       notes t1 = notes t) /\
    (forall r', r' <> 1%nat -> deref (heap st') r' = deref (heap st) r') /\
    arrays (heap st') = arrays (heap st) /\
    todos st' = todos st /\ collection st' = collection st.
Proof.
  intros st t.
  apply (rename_updates_title_only st 2 (lit " B2 ") [0%nat] [] 1%nat t);
    [reflexivity|lia| |reflexivity|reflexivity|reflexivity|].
  - vm_compute. discriminate.
  - intros r' t' Hin Hr'. apply list_elem_of_singleton in Hin as ->.
    vm_compute in Hr'. inversion Hr'; subst t'. simpl. lia.
Defined.

(** ** The stable sort *)

Section StableSortFacts.
Context {A : Type} (cmp : A -> A -> Z).

Lemma insert_Permutation x l : insert cmp x l ≡ₚ x :: l.
Proof.
  induction l as [|y l IH]; simpl; [done|].
  destruct (cmp x y <=? 0); [done|].
  rewrite IH. apply perm_swap.
Qed.

Lemma stable_sort_Permutation l : stable_sort cmp l ≡ₚ l.
Proof.
  induction l as [|x l IH]; simpl; [done|].
  by rewrite insert_Permutation, IH.
Qed.

Lemma HdRel_insert y x l :
  HdRel (before cmp) y l -> before cmp y x ->
  HdRel (before cmp) y (insert cmp x l).
Proof.
  intros Hy Hyx. destruct l as [|z l]; simpl.
  - by constructor.
  - destruct (cmp x z <=? 0); constructor; [done|].
    by inversion Hy.
Qed.

(** A list in order is left as it is. *)
Lemma stable_sort_of_sorted l :
  Sorted (before cmp) l -> stable_sort cmp l = l.
Proof.
  induction 1 as [|x l Hl IH Hx]; simpl; [done|].
  rewrite IH. destruct Hx as [|y l Hxy]; simpl; [done|].
  unfold before in Hxy. by destruct (Z.leb_spec (cmp x y) 0); [|lia].
Qed.

Hypothesis cmp_total : forall x y, cmp x y <= 0 \/ cmp y x <= 0.

Lemma insert_Sorted x l :
  Sorted (before cmp) l -> Sorted (before cmp) (insert cmp x l).
Proof.
  induction 1 as [|y l Hl IH Hy]; simpl.
  - by repeat constructor.
  - destruct (Z.leb_spec (cmp x y) 0) as [Hxy|Hxy].
    + by repeat constructor.
    + constructor; [done|]. apply HdRel_insert; [done|].
      unfold before. destruct (cmp_total x y); lia.
Qed.

Lemma stable_sort_Sorted l : Sorted (before cmp) (stable_sort cmp l).
Proof.
  induction l as [|x l IH]; simpl; [constructor|]. by apply insert_Sorted.
Qed.

(** From here on the comparator is consistent: a total preorder. *)
Hypothesis cmp_trans :
  forall x y z, cmp x y <= 0 -> cmp y z <= 0 -> cmp x z <= 0.

Lemma tied_iff x y : tied cmp x y = true <-> cmp x y <= 0 /\ cmp y x <= 0.
Proof. unfold tied. rewrite andb_true_iff, !Z.leb_le. tauto. Qed.

Lemma filter_tied_insert x a l :
  List.filter (tied cmp x) (insert cmp a l) = List.filter (tied cmp x) (a :: l).
Proof.
  induction l as [|y l IH]; [done|]. cbn [insert].
  destruct (Z.leb_spec (cmp a y) 0) as [Hay|Hay]; [done|].
  cbn [List.filter] in *. rewrite IH.
  destruct (tied cmp x a) eqn:Hxa; [|done].
  destruct (tied cmp x y) eqn:Hxy; [|done].
  apply tied_iff in Hxa as [Hxa Hax]. apply tied_iff in Hxy as [Hxy Hyx].
  pose proof (cmp_trans a x y Hax Hxy). lia.
Qed.

(** The sort is stable: elements that are tied keep their order. *)
Lemma stable_sort_stable x l :
  List.filter (tied cmp x) (stable_sort cmp l) = List.filter (tied cmp x) l.
Proof.
  induction l as [|a l IH]; [done|].
  cbn [stable_sort foldr]. fold (stable_sort cmp l).
  rewrite filter_tied_insert. cbn [List.filter]. by rewrite IH.
Qed.

Lemma Sorted_head_before a l :
  Sorted (before cmp) (a :: l) -> forall y, In y l -> before cmp a y.
Proof.
  revert a. induction l as [|b l IH]; intros a Hs y Hy; [done|].
  apply Sorted_inv in Hs as [Hs Hab]. apply HdRel_inv in Hab.
  destruct Hy as [->|Hy]; [done|].
  unfold before in *. eapply cmp_trans; [exact Hab|]. by apply IH.
Qed.

Lemma sorted_stable_unique l1 l2 :
  l1 ≡ₚ l2 -> Sorted (before cmp) l1 -> Sorted (before cmp) l2 ->
  (forall x, List.filter (tied cmp x) l1 = List.filter (tied cmp x) l2) ->
  l1 = l2.
Proof.
  revert l2. induction l1 as [|a l1 IH]; intros l2 Hperm S1 S2 Hst.
  - by apply Permutation_nil in Hperm.
  - destruct l2 as [|b l2].
    { symmetry in Hperm. by apply Permutation_nil in Hperm. }
    assert (Hrefl : forall x, cmp x x <= 0) by (intros x; by destruct (cmp_total x x)).
    assert (Hba : before cmp b a).
    { destruct (Permutation_in a Hperm (or_introl eq_refl)) as [->|Hin].
      - apply Hrefl.
      - by apply (Sorted_head_before b l2). }
    assert (Hab : before cmp a b).
    { destruct (Permutation_in b (Permutation_sym Hperm) (or_introl eq_refl))
        as [->|Hin].
      - apply Hrefl.
      - by apply (Sorted_head_before a l1). }
    assert (a = b) as <-.
    { pose proof (Hst a) as Ha. cbn [List.filter] in Ha.
      rewrite (proj2 (tied_iff a a)) in Ha by (split; apply Hrefl).
      rewrite (proj2 (tied_iff a b)) in Ha by done.
      by injection Ha. }
    f_equal. apply IH.
    + by apply Permutation_cons_inv in Hperm.
    + by apply Sorted_inv in S1 as [S1 _].
    + by apply Sorted_inv in S2 as [S2 _].
    + intros x. pose proof (Hst x) as Hx. cbn [List.filter] in Hx.
      destruct (tied cmp x a); [by injection Hx|done].
Qed.

(** Any rearrangement of [l] that is in order and keeps tied elements in
    their order is the one [stable_sort] gives: the outcome does not depend
    on the sorting algorithm. *)
Lemma stable_sort_unique l l' :
  l' ≡ₚ l -> Sorted (before cmp) l' ->
  (forall x, List.filter (tied cmp x) l' = List.filter (tied cmp x) l) ->
  l' = stable_sort cmp l.
Proof.
  intros Hperm Hsorted Hstable. apply sorted_stable_unique.
  - by rewrite stable_sort_Permutation.
  - done.
  - apply stable_sort_Sorted.
  - intros x. by rewrite stable_sort_stable.
Qed.
End StableSortFacts.

Lemma Sorted_adjacent {A} (R : A -> A -> Prop) l1 a b l2 :
  Sorted R (l1 ++ a :: b :: l2) -> R a b.
Proof.
  induction l1 as [|x l1 IH]; simpl; intros Hs.
  - apply Sorted_inv in Hs as [_ Hab]. by inversion Hab.
  - apply Sorted_inv in Hs as [Hs _]. auto.
Qed.

Lemma on_objects_compareFn_total `{Host} h r1 r2 :
  on_objects h compareFn r1 r2 <= 0 \/ on_objects h compareFn r2 r1 <= 0.
Proof.
  unfold on_objects.
  destruct (deref h r1) as [a|], (deref h r2) as [b|]; try (left; lia).
  unfold compareFn.
  destruct (Z.eqb_spec (priorityOrder (priority a)) (priorityOrder (priority b)))
    as [Heq|Hne]; simpl.
  - rewrite Heq, Z.eqb_refl. simpl.
    destruct (getTime (created_at a)) as [ta|], (getTime (created_at b)) as [tb|];
      simpl; lia.
  - destruct (Z.eqb_spec (priorityOrder (priority b)) (priorityOrder (priority a)));
      [congruence|]. simpl. lia.
Qed.

(** ** The getter, stage by stage *)

Lemma on_object_objects h h' p r :
  objects h' = objects h -> on_object h' p r = on_object h p r.
Proof. unfold on_object, deref. by intros ->. Qed.

Lemma filter_on_object_ext h h' p q (l : list oref) :
  objects h' = objects h -> (forall t, p t = q t) ->
  filter (on_object h' p) l = filter (on_object h q) l.
Proof.
  intros Hobj Hpq. apply list_filter_iff. intros r.
  rewrite (on_object_objects h h' p r Hobj). unfold on_object.
  destruct (deref h r); [by rewrite Hpq|done].
Qed.

Lemma filter_on_object_twice h p q (l : list oref) :
  filter (on_object h q) (filter (on_object h p) l)
  = filter (on_object h (fun t => p t && q t)) l.
Proof.
  rewrite list_filter_filter. apply list_filter_iff. intros r.
  unfold on_object. destruct (deref h r) as [t|]; simpl.
  - destruct (p t), (q t); simpl; tauto.
  - tauto.
Qed.

Lemma elements_new_array h l :
  elements (snd (new_array l h)) (fst (new_array l h)) = l.
Proof.
  unfold elements, new_array. simpl.
  rewrite lookup_app_r by lia. by rewrite Nat.sub_diag.
Qed.

Lemma staged_start h0 a0 : staged h0 a0 (fun _ => true) false (a0, h0).
Proof. repeat split; [by exists []; rewrite app_nil_r|done..]. Qed.

Lemma staged_ext h0 a0 p q fresh r :
  (forall t, p t = q t) -> staged h0 a0 p fresh r -> staged h0 a0 q fresh r.
Proof.
  intros Hpq. destruct r as [a h]. unfold staged.
  intros (Hobj & Hext & Hrest). split; [done|]. split; [done|].
  destruct fresh.
  - destruct Hrest as [Hle Hel]. split; [done|]. rewrite Hel.
    by apply filter_on_object_ext.
  - destruct Hrest as (-> & -> & Hp). repeat split. intros t.
    by rewrite <- Hpq.
Qed.

Lemma staged_filter h0 a0 p fresh a h q :
  staged h0 a0 p fresh (a, h) ->
  staged h0 a0 (fun t => p t && q t) true (Array_filter q a h).
Proof.
  unfold staged at 1. intros (Hobj & [ext Hext] & Hrest).
  unfold Array_filter.
  pose proof (elements_new_array h (filter (on_object h q) (elements h a)))
    as Hnew.
  destruct (new_array _ h) as [a' h'] eqn:Hna. simpl in Hnew.
  unfold new_array in Hna. injection Hna as <- <-. simpl.
  split; [done|]. split.
  { exists (ext ++ [filter (on_object h q) (elements h a)]).
    by rewrite Hext, app_assoc. }
  split; [rewrite Hext, length_app; lia|].
  rewrite Hnew. destruct fresh.
  - destruct Hrest as [_ Hel]. rewrite Hel.
    rewrite (filter_on_object_ext h0 h q q) by done.
    apply filter_on_object_twice.
  - destruct Hrest as (-> & -> & Hp).
    apply filter_on_object_ext; [done|]. intros t. by rewrite Hp.
Qed.

(** One stage: filter by [q] when [c] holds, else pass the array on. *)
Lemma staged_when h0 a0 p fresh a h (c : bool) q :
  staged h0 a0 p fresh (a, h) ->
  staged h0 a0 (fun t => p t && when c q t) (fresh || c)
         ((if c then Array_filter q a else ret a) h).
Proof.
  intros Hst. destruct c.
  - rewrite orb_true_r. exact (staged_filter h0 a0 p fresh a h q Hst).
  - rewrite orb_false_r. apply (staged_ext h0 a0 p); [|exact Hst].
    intros t. unfold when. by rewrite andb_true_r.
Qed.

Lemma status_stage now f a :
  (if eqb (selectedFilter f) (lit "pending")
   then Array_filter (fun todo => negb (completed todo)) a
   else if eqb (selectedFilter f) (lit "completed")
   then Array_filter (fun todo => completed todo) a
   else if eqb (selectedFilter f) (lit "overdue")
   then Array_filter (overdueOn (todayOf now)) a
   else ret a)
  = (if statusActive f then Array_filter (statusPred now f) a else ret a).
Proof.
  unfold statusActive, statusPred.
  by destruct (eqb (selectedFilter f) (lit "pending")),
             (eqb (selectedFilter f) (lit "completed")),
             (eqb (selectedFilter f) (lit "overdue")).
Qed.

Lemma when_statusPred now f t :
  when (statusActive f) (statusPred now f) t = statusPred now f t.
Proof.
  unfold statusActive, statusPred, when.
  by destruct (eqb (selectedFilter f) (lit "pending")),
             (eqb (selectedFilter f) (lit "completed")),
             (eqb (selectedFilter f) (lit "overdue")).
Qed.

Lemma filtering_stages f :
  filtering f
  = (false || truthy (searchQuery f) || statusActive f
     || negb (eqb (selectedCategory f) (lit "all"))
     || negb (eqb (selectedPriority f) (lit "all"))).
Proof.
  unfold filtering, statusActive.
  by destruct (truthy (searchQuery f)),
             (eqb (selectedFilter f) (lit "pending")),
             (eqb (selectedFilter f) (lit "completed")),
             (eqb (selectedFilter f) (lit "overdue")).
Qed.

(** Runs the next stage of the getter on the invariant [S]. *)
Local Ltac next_stage S c q :=
  eapply (staged_when _ _ _ _ _ _ c q) in S;
  match type of S with
  | staged _ _ _ _ ?r =>
      let E := fresh "E" in
      destruct r as [? ?] eqn:E; try rewrite E in S
  end.

(** The array the getter is about to sort. *)
Lemma filteredTodos_stages `{Host} now st :
  exists a h,
    filteredTodos_body now st (heap st) = Array_sort compareFn a h /\
    staged (heap st) (todos st) (selects now (filters st))
           (filtering (filters st)) (a, h).
Proof.
  unfold filteredTodos_body, bind.
  set (f := filters st).
  pose proof (staged_start (heap st) (todos st)) as S0.
  next_stage S0 (truthy (searchQuery f)) (matchesQuery (searchQuery f)).
  rewrite status_stage.
  next_stage S0 (statusActive f) (statusPred now f).
  next_stage S0 (negb (eqb (selectedCategory f) (lit "all")))
             (fun todo => eqb (category todo) (selectedCategory f)).
  next_stage S0 (negb (eqb (selectedPriority f) (lit "all")))
             (fun todo => eqb (priorityName (priority todo)) (selectedPriority f)).
  eexists _, _. split; [reflexivity|].
  rewrite filtering_stages. fold f.
  eapply staged_ext; [|exact S0].
  intros t. unfold selects. fold f. by rewrite when_statusPred.
Qed.

Lemma elements_write_array_sorted h a cmp :
  elements (write_array a (stable_sort cmp (elements h a)) h) a
  = stable_sort cmp (elements h a).
Proof.
  unfold elements, write_array. simpl.
  destruct (arrays h !! a) as [l|] eqn:Ha; simpl.
  - rewrite list_lookup_insert_eq; [done|]. by eapply lookup_lt_Some.
  - rewrite list_insert_ge; [by rewrite Ha|]. by apply lookup_ge_None.
Qed.

Lemma on_objects_objects h h' f :
  objects h' = objects h -> on_objects h' f = on_objects h f.
Proof. unfold on_objects, deref. by intros ->. Qed.

(** What reading the view does: the store's objects and every [ref] but
    the store are as before; the array returned holds the kept tasks in
    sorted order; with a filter set it is a fresh array and the arrays that
    existed are as before, with none set it is [todos.value] itself, sorted
    in place. *)
Lemma filteredTodos_spec `{Host} now st :
  let view := fst (filteredTodos now st) in
  let st' := snd (filteredTodos now st) in
  let f := filters st in
  objects (heap st') = objects (heap st) /\
  (todos st' = todos st /\ form st' = form st /\ filters st' = f /\
   edit st' = edit st /\ console st' = console st) /\
  elements (heap st') view
  = stable_sort (on_objects (heap st) compareFn)
      (if filtering f
       then filter (on_object (heap st) (selects now f)) (collection st)
       else collection st) /\
  if filtering f then
    (length (arrays (heap st)) <= view)%nat /\
    forall a, (a < length (arrays (heap st)))%nat ->
              arrays (heap st') !! a = arrays (heap st) !! a
  else
    view = todos st /\
    heap st' = write_array (todos st)
                 (stable_sort (on_objects (heap st) compareFn) (collection st))
                 (heap st).
Proof.
  intros view st' f. subst view st'. unfold filteredTodos.
  destruct (filteredTodos_stages now st) as (a & h & -> & Hst).
  unfold Array_sort. simpl. fold f in Hst |- *.
  destruct Hst as (Hobj & [ext Hext] & Hrest).
  split; [done|]. split; [done|].
  rewrite elements_write_array_sorted, (on_objects_objects _ _ _ Hobj).
  destruct (filtering f).
  - destruct Hrest as [Hle Hel]. rewrite Hel. repeat split; [done|].
    intros a' Ha'. rewrite list_lookup_insert_ne by lia.
    rewrite Hext. by apply lookup_app_l.
  - by destruct Hrest as (-> & -> & _).
Qed.

(** With a filter set, the view is an array of its own, and the stored
    collection is as it was. *)
Lemma filteredTodos_fresh `{Host} now st :
  filtering (filters st) = true ->
  (todos st < length (arrays (heap st)))%nat ->
  fst (filteredTodos now st) <> todos st /\
  collection (snd (filteredTodos now st)) = collection st /\
  objects (heap (snd (filteredTodos now st))) = objects (heap st).
Proof.
  intros Hf Halloc.
  destruct (filteredTodos_spec now st) as (Hobj & (Htodos & _) & _ & Hrest).
  rewrite Hf in Hrest. destruct Hrest as [Hle Hold].
  split; [lia|]. split; [|done].
  unfold collection, elements. rewrite Htodos. by rewrite Hold.
Qed.

(** ** What the view holds *)

Lemma eqb_true_iff a b : eqb a b = true <-> a = b.
Proof. unfold eqb. apply bool_decide_eq_true. Qed.

Lemma eqb_false_iff a b : eqb a b = false <-> a <> b.
Proof. unfold eqb. apply bool_decide_eq_false. Qed.

Lemma matchesQuery_text_matches `{Host} q t :
  matchesQuery q t = true <-> text_matches q t.
Proof.
  unfold matchesQuery, text_matches. rewrite orb_true_iff.
  apply or_iff_compat_l. destruct (notes t) as [n|].
  - rewrite andb_true_iff. split.
    + intros [Hn Hin]. exists n. repeat split; [|done].
      intros ->. discriminate Hn.
    + intros (n' & [= <-] & Hn & Hin). split; [by apply truthy_true|done].
  - split; [done|]. by intros (n & Hn & _).
Qed.

Lemma overdueOn_is_overdue today t :
  overdueOn today t = true <-> is_overdue today t.
Proof.
  unfold overdueOn, is_overdue. rewrite andb_true_iff, negb_true_iff.
  apply and_iff_compat_l. destruct (due_date t) as [d|].
  - rewrite andb_true_iff. split.
    + intros [Hd Hlt]. exists d. repeat split; [|done].
      intros ->. discriminate Hd.
    + intros (d' & [= <-] & Hd & Hlt). split; [by apply truthy_true|done].
  - split; [done|]. by intros (d & Hd & _).
Qed.

Lemma statusPred_iff now f t :
  statusPred now f t = true <->
  (selectedFilter f = lit "pending" -> completed t = false) /\
  (selectedFilter f = lit "completed" -> completed t = true) /\
  (selectedFilter f = lit "overdue" -> is_overdue (todayOf now) t).
Proof.
  unfold statusPred.
  destruct (eqb (selectedFilter f) (lit "pending")) eqn:Ep.
  { apply eqb_true_iff in Ep. rewrite Ep, negb_true_iff.
    split; [|by intros [Hp _]; apply Hp].
    intros Hc. split; [done|]. split; intros [=]. }
  apply eqb_false_iff in Ep.
  destruct (eqb (selectedFilter f) (lit "completed")) eqn:Ec.
  { apply eqb_true_iff in Ec. rewrite Ec.
    split; [|by intros (_ & Hc & _); apply Hc].
    intros Hc. split; [intros [=]|]. split; [done|intros [=]]. }
  apply eqb_false_iff in Ec.
  destruct (eqb (selectedFilter f) (lit "overdue")) eqn:Eo.
  { apply eqb_true_iff in Eo. rewrite Eo, overdueOn_is_overdue.
    split; [|by intros (_ & _ & Ho); apply Ho].
    intros Ho. split; [intros [=]|]. split; [intros [=]|done]. }
  apply eqb_false_iff in Eo. by split.
Qed.

Lemma when_true_iff (c : bool) q t :
  when c q t = true <-> (c = true -> q t = true).
Proof. destruct c; simpl; split; auto; congruence. Qed.

Lemma selects_passes `{Host} now f t : selects now f t = true <-> passes now f t.
Proof.
  unfold selects, passes, passes_selects.
  rewrite !andb_true_iff, statusPred_iff, !when_true_iff.
  rewrite !negb_true_iff, !eqb_false_iff, !eqb_true_iff.
  rewrite matchesQuery_text_matches.
  assert (Hq : truthy (searchQuery f) = true <-> searchQuery f <> []).
  { destruct (searchQuery f); simpl; split; congruence. }
  rewrite Hq. tauto.
Qed.

Lemma selects_without_filter `{Host} now f t :
  filtering f = false -> selects now f t = true.
Proof.
  unfold filtering, selects, statusPred, when. intros Hf.
  repeat (apply orb_false_elim in Hf as [Hf ?]).
  by repeat match goal with E : _ = false |- _ => rewrite E; clear E end.
Qed.

Lemma view_spec `{Host} now st :
  view now st
  = stable_sort (on_objects (heap st) compareFn)
      (if filtering (filters st)
       then filter (on_object (heap st) (selects now (filters st)))
                   (collection st)
       else collection st).
Proof. unfold view. by destruct (filteredTodos_spec now st) as (_ & _ & -> & _). Qed.

(** C3, amended. The view holds a task exactly when the collection holds
    it and it satisfies every active predicate: the text query is active
    whenever it is not the empty string (it is not trimmed, so a query of
    white space keeps only the tasks whose title or notes contain it), and
    the overdue predicate keeps the tasks that are not completed, have a
    due date, and whose due date is before the current date. *)
Theorem view_holds_what_passes `{Host} (now : jsstring) (st : State)
    (r : oref) (t : Todo) :
  deref (heap st) r = Some t ->
  (r ∈ view now st <-> r ∈ collection st /\ passes now (filters st) t).
Proof.
  intros Hr. rewrite view_spec, stable_sort_Permutation.
  destruct (filtering (filters st)) eqn:Hf.
  - rewrite list_elem_of_filter. unfold on_object at 1. rewrite Hr.
    rewrite <- selects_passes. rewrite Is_true_true. tauto.
  - rewrite <- selects_passes, selects_without_filter by done. tauto.
Qed.

Lemma view_holds_what_passes_witness :
  let st := Examples.holding Examples.two_tasks
              (mkFilters [] (lit "overdue") (lit "all") (lit "all"))
              (mkEdit None []) in
  let now := lit "2025-06-13T10:00:00Z" in
  let t := Examples.a_task 1 "A" false high "2025-06-10T08:00:00Z" "2025-06-12" in
  deref (heap st) 0%nat = Some t /\
  (0%nat ∈ view (H := SampleHost.host) now st
   <-> 0%nat ∈ collection st /\ passes (H := SampleHost.host) now (filters st) t).
Proof.
  intros st now t. split; [reflexivity|].
  apply (@view_holds_what_passes SampleHost.host now st 0%nat t).
  reflexivity.
Defined.

(** The scenario of two tasks, one due yesterday and one due tomorrow: the
    overdue filter shows the first only. *)
Example overdue_filter_scenario :
  view (H := SampleHost.host) (lit "2025-06-13T10:00:00Z")
       (Examples.holding Examples.two_tasks
          (mkFilters [] (lit "overdue") (lit "all") (lit "all"))
          (mkEdit None []))
  = [0%nat].
Proof. vm_compute. reflexivity. Qed.

(** C3, as stated, fails: with the query [" "] and no other filter, task
    [A] (no notes) satisfies every predicate that is active after
    trimming, yet the view is empty. *)
Lemma view_holds_what_passes_trimmed_fails : ~ view_holds_what_passes_trimmed.
Proof.
  intros Hclaim.
  pose (st := Examples.holding Examples.two_tasks
                (mkFilters (lit " ") (lit "all") (lit "all") (lit "all"))
                (mkEdit None [])).
  pose (t := Examples.a_task 1 "A" false high "2025-06-10T08:00:00Z" "2025-06-12").
  destruct (Hclaim SampleHost.host (lit "2025-06-13T10:00:00Z") st 0%nat t eq_refl)
    as [_ Hback].
  assert (Hin : 0%nat ∈ view (H := SampleHost.host) (lit "2025-06-13T10:00:00Z") st).
  { apply Hback. split; [by left|].
    split; [intros Hq; exfalso; apply Hq; reflexivity|].
    split; [|split; [|split; [|split]]];
      intros Hsel; vm_compute in Hsel; congruence. }
  vm_compute in Hin. by apply elem_of_nil in Hin.
Qed.

(** ** The order of the view *)

(** C5. When every task of the collection has a [created_at] that is a
    valid timestamp, any two neighbours [a], [b] of the view, in this
    order, satisfy: the priority rank of [a] is above that of [b], or the
    ranks are equal and [a] was created no earlier than [b]. *)
Theorem view_is_sorted `{Host} (now : jsstring) (st : State) :
  (forall r, r ∈ collection st ->
     exists t ms, deref (heap st) r = Some t /\ getTime (created_at t) = Some ms) ->
  forall l1 ra rb l2,
    view now st = l1 ++ ra :: rb :: l2 ->
    exists a b ta tb,
      deref (heap (snd (filteredTodos now st))) ra = Some a /\
      deref (heap (snd (filteredTodos now st))) rb = Some b /\
      getTime (created_at a) = Some ta /\ getTime (created_at b) = Some tb /\
      (priorityOrder (priority a) > priorityOrder (priority b) \/
       priorityOrder (priority a) = priorityOrder (priority b) /\ ta >= tb).
Proof.
  intros Hvalid l1 ra rb l2 Hview.
  assert (Hsub : forall r, r ∈ view now st -> r ∈ collection st).
  { intros r. rewrite view_spec, stable_sort_Permutation.
    destruct (filtering (filters st)); [|done].
    rewrite list_elem_of_filter. tauto. }
  assert (Hle : on_objects (heap st) compareFn ra rb <= 0).
  { apply (Sorted_adjacent (before (on_objects (heap st) compareFn)) l1 ra rb l2).
    rewrite <- Hview, view_spec.
    apply stable_sort_Sorted. apply on_objects_compareFn_total. }
  destruct (Hvalid ra) as (a & ta & Ha & Hta).
  { apply Hsub. rewrite Hview. apply elem_of_app. right. by left. }
  destruct (Hvalid rb) as (b & tb & Hb & Htb).
  { apply Hsub. rewrite Hview. apply elem_of_app. right. right. by left. }
  destruct (filteredTodos_spec now st) as (Hobj & _).
  exists a, b, ta, tb. unfold deref in *. rewrite Hobj.
  repeat split; try done.
  unfold on_objects, deref in Hle. rewrite Ha, Hb in Hle.
  unfold compareFn in Hle. rewrite Hta, Htb in Hle.
  destruct (Z.eqb_spec (priorityOrder (priority a)) (priorityOrder (priority b)));
    simpl in Hle; lia.
Qed.

Lemma view_is_sorted_witness :
  let st := Examples.holding Examples.two_tasks Examples.no_filters
              (mkEdit None []) in
  let now := lit "2025-06-13T10:00:00Z" in
  view (H := SampleHost.host) now st = [] ++ 0%nat :: 1%nat :: [] /\
  exists a b ta tb,
    deref (heap (snd (filteredTodos (H := SampleHost.host) now st))) 0%nat = Some a /\
    deref (heap (snd (filteredTodos (H := SampleHost.host) now st))) 1%nat = Some b /\
    getTime (Host := SampleHost.host) (created_at a) = Some ta /\
    getTime (Host := SampleHost.host) (created_at b) = Some tb /\
    (priorityOrder (priority a) > priorityOrder (priority b) \/
     priorityOrder (priority a) = priorityOrder (priority b) /\ ta >= tb).
Proof.
  intros st now. split; [reflexivity|].
  apply (@view_is_sorted SampleHost.host now st) with (l1 := []) (l2 := []);
    [|reflexivity].
  intros r Hin. change (collection st) with [0; 1]%nat in Hin.
  apply elem_of_cons in Hin as [->|Hin];
    [|apply list_elem_of_singleton in Hin as ->];
    eexists _, _; split; reflexivity.
Defined.

(** ** Where the code departs from what is claimed of it *)

(** With no filter set the getter sorts [todos.value] itself. *)
Lemma filteredTodos_in_place `{Host} now st :
  filtering (filters st) = false ->
  fst (filteredTodos now st) = todos st /\
  heap (snd (filteredTodos now st))
  = write_array (todos st)
      (stable_sort (on_objects (heap st) compareFn) (collection st)) (heap st).
Proof.
  intros Hf. destruct (filteredTodos_spec now st) as (_ & _ & _ & Hrest).
  by rewrite Hf in Hrest.
Qed.

(** C2, on the code: with every filter at its default, reading the view of
    the collection [B (low), A (high)] returns the array [todos.value]
    holds, and that array now reads [A, B]: the stored order has changed
    and the view is not a sequence of its own. *)
Theorem view_without_filter_reorders_collection :
  let st := Examples.holding Examples.newest_first Examples.no_filters
              (mkEdit None []) in
  let now := lit "2025-06-13T10:00:00Z" in
  let r := filteredTodos (H := SampleHost.host) now st in
  filtering (filters st) = false /\
  fst r = todos st /\
  ids st = [2; 1] /\ ids (snd r) = [1; 2] /\
  collection st = [0; 1]%nat /\ collection (snd r) = [1; 0]%nat.
Proof. vm_compute. by repeat split. Qed.

(** C1, on the code: task 1 is completed and task 2 is not when
    [clearCompleted] is invoked, so the bulk delete is sent for the ids
    [1]. Before its reply, task 1 is toggled back and task 2 is toggled to
    completed, both confirmed. When the bulk delete is then confirmed, the
    collection keeps task 1 and drops task 2. *)
Theorem clearCompleted_filters_by_later_flags :
  let st := Examples.holding Examples.one_done Examples.no_filters
              (mkEdit None []) in
  let sent := run (st, []) [Invoke ClearCompleted] in
  let final := run sent [Invoke (ToggleTodo 0%nat); Invoke (ToggleTodo 1%nat);
                         Arrive 1%nat (Data None); Arrive 1%nat (Data None);
                         Arrive 0%nat (Data None)] in
  ids st = [1; 2] /\
  in_flight sent = [DeleteIn [1]] /\
  in_flight final = [] /\
  ids (fst final) = [1].
Proof. vm_compute. by repeat split. Qed.

Lemma completionPercentage_empty st :
  collection st = [] -> completionPercentage st = 0%float.
Proof. unfold completionPercentage. by intros ->. Qed.

(** The scenario of two tasks: none completed gives 0, one completed 50. *)
Example completionPercentage_scenario :
  completionPercentage
    (Examples.holding Examples.two_tasks Examples.no_filters (mkEdit None []))
  = 0%float /\
  completionPercentage
    (Examples.holding Examples.one_done Examples.no_filters (mkEdit None []))
  = 50%float.
Proof. vm_compute. by split. Qed.

(** C6, on the code: with 23 of 40 tasks completed the ratio is 57.5
    percent, which rounds to 58, in exact arithmetic and also when the
    doubles multiply before they divide; the code divides first, the
    doubles give [23 / 40 * 100 = 57.49999999999999], and the percentage
    shown is 57. *)
Theorem completionPercentage_23_of_40 :
  let st := Examples.holding (Examples.some_done 23 40) Examples.no_filters
              (mkEdit None []) in
  length (collection st) = 40%nat /\
  length (filter (on_object (heap st) completed) (collection st)) = 23%nat /\
  completionPercentage st = 57%float /\
  round_ratio (100 * 23) 40 = 58 /\
  Math_round (100 * 23 / 40)%float = 58%float.
Proof. vm_compute. by repeat split. Qed.

Lemma completionPercentage_percentage st :
  completionPercentage st
  = if Nat.eqb (length (collection st)) 0 then 0%float
    else percentage
           (length (filter (on_object (heap st) completed) (collection st)))
           (length (collection st)).
Proof. reflexivity. Qed.

(** For every size up to 100, evaluated: one more completed task never
    lowers the percentage. *)
Lemma percentage_monotone_checked :
  forallb (fun n =>
             forallb (fun c => PrimFloat.leb (percentage c n) (percentage (S c) n))
                     (seq 0 n))
          (seq 1 100) = true.
Proof. vm_compute. reflexivity. Qed.

(** Up to 100 tasks, completing one more task never lowers the percentage,
    whatever the doubles round to. *)
Lemma percentage_monotone (c n : nat) :
  (n <= 100)%nat -> (c < n)%nat ->
  PrimFloat.leb (percentage c n) (percentage (S c) n) = true.
Proof.
  intros Hn Hc.
  pose proof (proj1 (forallb_forall _ _) percentage_monotone_checked n
                (proj2 (in_seq 100 1 n) ltac:(lia))) as Hrow.
  exact (proj1 (forallb_forall _ _) Hrow c (proj2 (in_seq n 0 c) ltac:(lia))).
Qed.

(** The scenario of a confirmed toggle: task 2 of two pending tasks becomes
    completed, and the percentage goes from 0 to 50. *)
Example toggle_scenario :
  let st := Examples.holding Examples.two_tasks Examples.no_filters
              (mkEdit None []) in
  let st' := outcome (ToggleTodo 1%nat) (Data None) st in
  issue (ToggleTodo 1%nat) st = Some (UpdateCompleted true 2, toggleTodo_k 1%nat) /\
  (completed <$> deref (heap st) 1%nat) = Some false /\
  (completed <$> deref (heap st') 1%nat) = Some true /\
  completionPercentage st = 0%float /\ completionPercentage st' = 50%float.
Proof. vm_compute. by repeat split. Qed.

(** ** Clearing the completed tasks *)

(** When the bulk delete is confirmed, the collection becomes a fresh array
    of the tasks that are not completed in the state the reply finds. *)
Lemma resume_clearCompleted d st :
  let st' := resume clearCompleted_k (Data d) st in
  collection st'
  = filter (on_object (heap st) (fun t => negb (completed t))) (collection st) /\
  objects (heap st') = objects (heap st).
Proof.
  simpl. unfold assign_filtered, Array_filter, collection.
  pose proof (elements_new_array (heap st)
    (filter (on_object (heap st) (fun t => negb (completed t)))
            (elements (heap st) (todos st)))) as Hnew.
  destruct (new_array _ (heap st)) as [a h] eqn:Hna. simpl in *.
  split; [done|]. unfold new_array in Hna. by injection Hna as <- <-.
Qed.

(** With nothing else happening between the request and its confirmation,
    the ids sent are the ids removed: what stays is what was not completed
    when [clearCompleted] was invoked. *)
Lemma clearCompleted_alone d st :
  let st' := outcome ClearCompleted (Data d) st in
  issue ClearCompleted st = Some (DeleteIn (completedIds st), clearCompleted_k) /\
  collection st'
  = filter (on_object (heap st) (fun t => negb (completed t))) (collection st) /\
  objects (heap st') = objects (heap st).
Proof.
  split; [done|].
  rewrite (outcome_resume ClearCompleted _ st (DeleteIn (completedIds st))
             clearCompleted_k eq_refl).
  apply resume_clearCompleted.
Qed.

Lemma completedIds_spec st r t :
  r ∈ collection st -> deref (heap st) r = Some t -> completed t = true ->
  id t ∈ completedIds st.
Proof.
  intros Hin Hr Hc. unfold completedIds. apply list_elem_of_omap.
  exists r. split; [|by rewrite Hr].
  apply list_elem_of_filter. split; [|done].
  unfold on_object. by rewrite Hr, Hc.
Qed.

Lemma step_Invoke st flight i rk :
  issue i st = Some rk -> step (st, flight) (Invoke i) = (st, flight ++ [rk]).
Proof. simpl. by intros ->. Qed.

Lemma step_Arrive st flight n req k reply :
  flight !! n = Some (req, k) ->
  step (st, flight) (Arrive n reply) = (resume k reply st, delete n flight).
Proof. simpl. by intros ->. Qed.

(** Whatever the state: a task that is completed when [clearCompleted] is
    invoked has its id in the bulk delete sent to the store; if it is
    toggled back, and the toggle confirmed, before the bulk delete is
    confirmed, the collection still holds it afterwards. *)
Lemma clearCompleted_keeps_task_toggled_back st r t d d' :
  r ∈ collection st -> deref (heap st) r = Some t -> completed t = true ->
  let final := run (st, []) [Invoke ClearCompleted; Invoke (ToggleTodo r);
                             Arrive 1%nat (Data d); Arrive 0%nat (Data d')] in
  issue ClearCompleted st = Some (DeleteIn (completedIds st), clearCompleted_k) /\
  id t ∈ completedIds st /\
  r ∈ collection (fst final) /\
  deref (heap (fst final)) r = Some (set_completed false t).
Proof.
  intros Hin Hr Hc final. split; [done|].
  split; [by eapply completedIds_spec|].
  assert (Htoggle : issue (ToggleTodo r) st
                    = Some (UpdateCompleted false (id t), toggleTodo_k r)).
  { simpl. unfold toggleTodo. by rewrite Hr, Hc. }
  subst final. unfold run. cbn [foldl].
  rewrite (step_Invoke st [] ClearCompleted _ eq_refl).
  rewrite (step_Invoke st _ (ToggleTodo r) _ Htoggle).
  cbn [app].
  rewrite (step_Arrive st
             [(DeleteIn (completedIds st), clearCompleted_k);
              (UpdateCompleted false (id t), toggleTodo_k r)]
             1%nat _ _ (Data d) eq_refl).
  cbn [delete list_delete].
  rewrite (step_Arrive _ [(DeleteIn (completedIds st), clearCompleted_k)]
             0%nat _ _ (Data d') eq_refl).
  set (st1 := resume (toggleTodo_k r) (Data d) st).
  assert (Hr1 : deref (heap st1) r = Some (set_completed false t)).
  { subst st1. simpl. rewrite Hr, Hc. by apply deref_write_object_eq with t. }
  assert (Hcoll1 : collection st1 = collection st).
  { subst st1. simpl. by rewrite Hr. }
  destruct (resume_clearCompleted d' st1) as [Hcoll Hobj].
  cbn [fst]. split.
  - rewrite Hcoll, Hcoll1. apply list_elem_of_filter. split; [|done].
    unfold on_object. by rewrite Hr1.
  - unfold deref in *. by rewrite Hobj.
Qed.

(** Within one priority rank the newer task comes first, and tasks created
    at the same instant keep their stored order. *)
Example newest_first_within_rank :
  view (H := SampleHost.host) (lit "2025-06-13T10:00:00Z")
       (Examples.holding
          [ Examples.a_task 1 "old" false medium "2025-06-10T08:00:00Z" "";
            Examples.a_task 2 "new" false medium "2025-06-11T08:00:00Z" "";
            Examples.a_task 3 "twin" false medium "2025-06-11T08:00:00Z" "";
            Examples.a_task 4 "urgent" false high "2025-06-09T08:00:00Z" "" ]
          Examples.no_filters (mkEdit None []))
  = [3; 1; 2; 0]%nat.
Proof. vm_compute. reflexivity. Qed.

(** * Further properties *)

(** ** Creating a task *)

Lemma trimStart_suffix s : exists pre, s = pre ++ trimStart s.
Proof.
  induction s as [|c s [pre IH]]; simpl; [by exists []|].
  destruct (isWhiteSpace c); [|by exists []].
  exists (c :: pre). simpl. by rewrite <- IH.
Qed.

(** What [trim] returns neither starts nor ends with white space. *)
Lemma trim_edges s c rest :
  (trim s = c :: rest -> isWhiteSpace c = false) /\
  (trim s = rest ++ [c] -> isWhiteSpace c = false).
Proof.
  unfold trim, trimEnd. set (u := trimStart s). split.
  - intros Hhead. apply (f_equal (@rev N)) in Hhead.
    rewrite rev_involutive in Hhead. simpl in Hhead.
    destruct (trimStart_suffix (rev u)) as [pre Hpre].
    rewrite Hhead in Hpre. apply (f_equal (@rev N)) in Hpre.
    rewrite rev_involutive, rev_app_distr, rev_app_distr in Hpre.
    simpl in Hpre. rewrite rev_involutive in Hpre. subst u.
    by apply trimStart_head in Hpre.
  - intros Hlast. apply (f_equal (@rev N)) in Hlast.
    rewrite rev_involutive, rev_app_distr in Hlast. simpl in Hlast.
    by apply trimStart_head in Hlast.
Qed.

Lemma or_null_not_empty s : or_null s <> Some [].
Proof. by destruct s. Qed.

(** X1. A create that is sent carries a title that is the trimmed text of
    the form, not empty, neither starting nor ending with white space; it
    is marked not completed, with the category and priority of the form;
    its due date and its notes are [null] rather than an empty string, the
    notes trimmed. *)
Theorem addTodo_request (st : State) (rq : Request) (k : Pending) :
  addTodo st = Some (rq, k) ->
  exists d,
    rq = Insert d /\ k = addTodo_k /\
    new_task d = trim (newTask (form st)) /\ new_task d <> [] /\
    (forall c rest, new_task d = c :: rest -> isWhiteSpace c = false) /\
    (forall c rest, new_task d = rest ++ [c] -> isWhiteSpace c = false) /\
    new_completed d = false /\
    new_category d = newCategory (form st) /\
    new_priority d = newPriority (form st) /\
    new_due_date d = or_null (newDueDate (form st)) /\
    new_due_date d <> Some [] /\
    new_notes d = or_null (trim (newNotes (form st))) /\
    new_notes d <> Some [].
Proof.
  unfold addTodo. destruct (truthy (trim (newTask (form st)))) eqn:Htitle;
    simpl; [|done].
  intros [= <- <-]. eexists. split; [reflexivity|]. simpl.
  repeat split; try apply or_null_not_empty.
  - intros Hnil. by rewrite Hnil in Htitle.
  - intros c rest. apply trim_edges.
  - intros c rest. apply trim_edges.
Qed.

Lemma addTodo_request_witness :
  let st := mkState (mkHeap [] [[]]) 0%nat
              (mkForm (lit "  buy milk ") (lit "shopping") high [] (lit "  "))
              Examples.no_filters (mkEdit None []) [] in
  exists d,
    Insert (mkNewTodo (lit "buy milk") false (lit "shopping") high None None)
    = Insert d /\ addTodo_k = addTodo_k /\
    new_task d = trim (newTask (form st)) /\ new_task d <> [] /\
    (forall c rest, new_task d = c :: rest -> isWhiteSpace c = false) /\
    (forall c rest, new_task d = rest ++ [c] -> isWhiteSpace c = false) /\
    new_completed d = false /\
    new_category d = newCategory (form st) /\
    new_priority d = newPriority (form st) /\
    new_due_date d = or_null (newDueDate (form st)) /\
    new_due_date d <> Some [] /\
    new_notes d = or_null (trim (newNotes (form st))) /\
    new_notes d <> Some [].
Proof.
  intros st.
  apply (addTodo_request st
           (Insert (mkNewTodo (lit "buy milk") false (lit "shopping") high
                              None None))
           addTodo_k).
  reflexivity.
Defined.

Lemma omap_cons_Some {A B} (f : A -> option B) x l y :
  f x = Some y -> omap f (x :: l) = y :: omap f l.
Proof. simpl. by intros ->. Qed.

Lemma omap_ext_in {A B} (f g : A -> option B) (l : list A) :
  (forall x, x ∈ l -> f x = g x) -> omap f l = omap g l.
Proof.
  induction l as [|x l IH]; intros Hfg; [done|].
  assert (Hl : omap f l = omap g l).
  { apply IH. intros y Hy. apply Hfg. by right. }
  change (omap f (x :: l))
    with (match f x with Some y => y :: omap f l | None => omap f l end).
  change (omap g (x :: l))
    with (match g x with Some y => y :: omap g l | None => omap g l end).
  rewrite (Hfg x) by left. by rewrite Hl.
Qed.

Lemma deref_new_object_old h row r :
  (r < length (objects h))%nat ->
  deref (snd (new_object row h)) r = deref h r.
Proof. unfold deref, new_object. simpl. intros Hr. by apply lookup_app_l. Qed.

Lemma elements_write_array h a l :
  (a < length (arrays h))%nat -> elements (write_array a l h) a = l.
Proof.
  unfold elements, write_array. simpl. intros Ha.
  by rewrite list_lookup_insert_eq.
Qed.

(** X2. On a well-formed state, a create that is confirmed with the row
    the store made puts that row, as a new object, in front of the
    collection; the tasks that were there follow in their order and their
    objects are as before; the form is back at its defaults; filters, edit
    and console are untouched, and the state is well-formed again. *)
Theorem addTodo_confirmed (st : State) (row : Todo) :
  well_formed st ->
  let st' := resume addTodo_k (Data (Some row)) st in
  let r := length (objects (heap st)) in
  collection st' = r :: collection st /\
  deref (heap st') r = Some row /\
  (forall r', r' ∈ collection st -> deref (heap st') r' = deref (heap st) r') /\
  ids st' = id row :: ids st /\
  form st' = mkForm [] (lit "personal") medium [] [] /\
  todos st' = todos st /\ filters st' = filters st /\ edit st' = edit st /\
  console st' = console st /\
  well_formed st'.
Proof.
  intros [Halloc Hlive] st' r.
  set (h := heap st) in *. set (a := todos st) in *.
  set (h1 := mkHeap (objects h ++ [row]) (arrays h)).
  set (h2 := write_array a (r :: elements h1 a) h1).
  assert (Hst' : st' = resetForm (with_heap h2 st)) by reflexivity.
  assert (Hsame : elements h1 a = elements h a) by reflexivity.
  assert (Hcoll : collection st' = r :: collection st).
  { rewrite Hst'. unfold collection. simpl. fold a h. subst h2.
    rewrite elements_write_array by done. by rewrite Hsame. }
  assert (Hnew : deref (heap st') r = Some row).
  { rewrite Hst'. unfold deref. simpl. subst r. rewrite lookup_app_r by lia.
    by rewrite Nat.sub_diag. }
  assert (Hold : forall r', r' ∈ collection st ->
                   deref (heap st') r' = deref (heap st) r').
  { intros r' Hin. rewrite Hst'. unfold deref. simpl. apply lookup_app_l.
    destruct (Hlive r' Hin) as [t Ht]. by eapply lookup_lt_Some. }
  split; [done|]. split; [done|]. split; [done|].
  split.
  { unfold ids. rewrite Hcoll.
    rewrite (omap_cons_Some _ r _ (id row)) by (by rewrite Hnew).
    f_equal. apply omap_ext_in. intros r' Hin. by rewrite Hold. }
  rewrite Hst'. repeat split; try done.
  - simpl. by rewrite length_insert.
  - rewrite <- Hst'. rewrite Hcoll. intros r' [->|Hin]%elem_of_cons.
    + by rewrite Hnew.
    + rewrite Hold by done. by apply Hlive.
Qed.

Lemma well_formed_holding ts f e : well_formed (Examples.holding ts f e).
Proof.
  split; [simpl; lia|]. intros r Hr.
  change (collection (Examples.holding ts f e)) with (seq 0 (length ts)) in Hr.
  apply list_elem_of_In, in_seq in Hr. apply lookup_lt_is_Some. simpl. lia.
Qed.

Lemma addTodo_confirmed_witness :
  let st := Examples.holding Examples.two_tasks Examples.no_filters
              (mkEdit None []) in
  let row := Examples.a_task 3 "C" false medium "2025-06-12T08:00:00Z" "" in
  let st' := resume addTodo_k (Data (Some row)) st in
  let r := length (objects (heap st)) in
  collection st' = r :: collection st /\
  deref (heap st') r = Some row /\
  (forall r', r' ∈ collection st -> deref (heap st') r' = deref (heap st) r') /\
  ids st' = id row :: ids st /\
  form st' = mkForm [] (lit "personal") medium [] [] /\
  todos st' = todos st /\ filters st' = filters st /\ edit st' = edit st /\
  console st' = console st /\
  well_formed st'.
Proof.
  intros st row. apply (addTodo_confirmed st row). apply well_formed_holding.
Defined.

(** ** Toggling a task *)

Lemma set_completed_twice v t :
  set_completed (negb (negb v)) (set_completed (negb v) t) = set_completed v t.
Proof. unfold set_completed. simpl. by rewrite negb_involutive. Qed.

Lemma set_completed_same t : set_completed (completed t) t = t.
Proof. by destruct t. Qed.

Lemma toggleTodo_sends st r t :
  deref (heap st) r = Some t ->
  issue (ToggleTodo r) st
  = Some (UpdateCompleted (negb (completed t)) (id t), toggleTodo_k r).
Proof. simpl. unfold toggleTodo. by intros ->. Qed.

Lemma resume_toggleTodo st r t d :
  deref (heap st) r = Some t ->
  resume (toggleTodo_k r) (Data d) st
  = with_heap (write_object r (set_completed (negb (completed t)) t) (heap st)) st.
Proof. simpl. by intros ->. Qed.

(** X3. Toggling a task object sends the update of [completed] to the
    negation of the flag the object has, for its id. When it is confirmed,
    that object has the flag negated and its other fields as before; every
    other object, the arrays, the collection and the rest of the state are
    as before. *)
Theorem toggleTodo_confirmed (st : State) (r : oref) (t : Todo)
    (d : option Todo) :
  deref (heap st) r = Some t ->
  let st' := outcome (ToggleTodo r) (Data d) st in
  issue (ToggleTodo r) st
  = Some (UpdateCompleted (negb (completed t)) (id t), toggleTodo_k r) /\
  (exists t', deref (heap st') r = Some t' /\
     completed t' = negb (completed t) /\ id t' = id t /\ task t' = task t /\
     created_at t' = created_at t /\ category t' = category t /\
     priority t' = priority t /\ due_date t' = due_date t /\
     notes t' = notes t) /\
  (forall r', r' <> r -> deref (heap st') r' = deref (heap st) r') /\
  arrays (heap st') = arrays (heap st) /\ collection st' = collection st /\
  ids st' = ids st /\
  todos st' = todos st /\ form st' = form st /\ filters st' = filters st /\
  edit st' = edit st /\ console st' = console st.
Proof.
  intros Hr st'. pose proof (toggleTodo_sends st r t Hr) as Hsend.
  split; [done|]. subst st'.
  rewrite (outcome_resume _ _ _ _ _ Hsend), (resume_toggleTodo st r t d Hr).
  split; [|split; [|repeat split]].
  - eexists. split; [by apply deref_write_object_eq with t|]. by repeat split.
  - intros r' Hne. by apply deref_write_object_ne.
  - unfold ids. change (collection (with_heap _ st)) with (collection st).
    apply omap_ext_in. intros r' _. simpl.
    destruct (decide (r' = r)) as [->|Hne].
    + by rewrite (deref_write_object_eq _ _ t), Hr.
    + by rewrite deref_write_object_ne.
Qed.

Lemma toggleTodo_confirmed_witness :
  let st := Examples.holding Examples.two_tasks Examples.no_filters
              (mkEdit None []) in
  let t := Examples.a_task 2 "B" false low "2025-06-11T08:00:00Z" "2025-06-14" in
  let st' := outcome (ToggleTodo 1%nat) (Data None) st in
  issue (ToggleTodo 1%nat) st
  = Some (UpdateCompleted (negb (completed t)) (id t), toggleTodo_k 1%nat) /\
  (exists t', deref (heap st') 1%nat = Some t' /\
     completed t' = negb (completed t) /\ id t' = id t /\ task t' = task t /\
     created_at t' = created_at t /\ category t' = category t /\
     priority t' = priority t /\ due_date t' = due_date t /\
     notes t' = notes t) /\
  (forall r', r' <> 1%nat -> deref (heap st') r' = deref (heap st) r') /\
  arrays (heap st') = arrays (heap st) /\ collection st' = collection st /\
  ids st' = ids st /\
  todos st' = todos st /\ form st' = form st /\ filters st' = filters st /\
  edit st' = edit st /\ console st' = console st.
Proof.
  intros st t. apply (toggleTodo_confirmed st 1%nat t None). reflexivity.
Defined.

Lemma with_heap_same st : with_heap (heap st) st = st.
Proof. by destruct st. Qed.

Lemma write_object_back h r t t' :
  deref h r = Some t -> write_object r t (write_object r t' h) = h.
Proof.
  unfold deref, write_object. simpl. intros Hr.
  rewrite list_insert_insert_eq, list_insert_id by done. by destruct h.
Qed.

(** X4. Toggling the same task object twice, each toggle confirmed before
    the next handler runs, gives back the state as it was, whatever the
    state and the object. *)
Theorem toggleTodo_twice (st : State) (r : oref) (d d' : option Todo) :
  outcome (ToggleTodo r) (Data d') (outcome (ToggleTodo r) (Data d) st) = st.
Proof.
  destruct (deref (heap st) r) as [t|] eqn:Hr.
  - rewrite (outcome_resume _ _ st _ _ (toggleTodo_sends st r t Hr)).
    rewrite (resume_toggleTodo st r t d Hr).
    set (t1 := set_completed (negb (completed t)) t).
    set (st1 := with_heap (write_object r t1 (heap st)) st).
    assert (Hr1 : deref (heap st1) r = Some t1)
      by (by apply deref_write_object_eq with t).
    rewrite (outcome_resume _ _ st1 _ _ (toggleTodo_sends st1 r t1 Hr1)).
    rewrite (resume_toggleTodo st1 r t1 d' Hr1).
    subst st1 t1. simpl. rewrite set_completed_twice, set_completed_same.
    rewrite (write_object_back _ _ _ _ Hr). by destruct st.
  - assert (Hnone : issue (ToggleTodo r) st = None).
    { simpl. unfold toggleTodo. by rewrite Hr. }
    by rewrite !(outcome_rejected_locally _ _ _ Hnone).
Qed.

(** X5. When the same task is toggled twice before either toggle is
    confirmed, both updates carry the same value, the negation of the flag
    the task had; once both are confirmed the state is as it was before
    the first toggle, so the flag shown is the opposite of the one sent. *)
Theorem toggleTodo_twice_in_flight (st : State) (r : oref) (t : Todo)
    (d d' : option Todo) :
  deref (heap st) r = Some t ->
  let sent := run (st, []) [Invoke (ToggleTodo r); Invoke (ToggleTodo r)] in
  let final := run sent [Arrive 0%nat (Data d); Arrive 0%nat (Data d')] in
  in_flight sent = [UpdateCompleted (negb (completed t)) (id t);
                    UpdateCompleted (negb (completed t)) (id t)] /\
  final = (st, []).
Proof.
  intros Hr sent final. pose proof (toggleTodo_sends st r t Hr) as Hsend.
  set (rk := (UpdateCompleted (negb (completed t)) (id t), toggleTodo_k r))
    in *.
  assert (Hsent : sent = (st, [rk; rk])).
  { subst sent. unfold run. cbn [foldl].
    by rewrite (step_Invoke st [] _ _ Hsend), (step_Invoke st _ _ _ Hsend). }
  split; [by rewrite Hsent|].
  subst final. rewrite Hsent. unfold run. cbn [foldl].
  rewrite (step_Arrive st [rk; rk] 0%nat _ (toggleTodo_k r) (Data d) eq_refl).
  cbn [delete list_delete].
  rewrite (resume_toggleTodo st r t d Hr).
  set (t1 := set_completed (negb (completed t)) t).
  set (st1 := with_heap (write_object r t1 (heap st)) st).
  assert (Hr1 : deref (heap st1) r = Some t1)
    by (by apply deref_write_object_eq with t).
  rewrite (step_Arrive st1 [rk] 0%nat _ (toggleTodo_k r) (Data d') eq_refl).
  cbn [delete list_delete].
  rewrite (resume_toggleTodo st1 r t1 d' Hr1).
  subst st1 t1. simpl. rewrite set_completed_twice, set_completed_same.
  rewrite (write_object_back _ _ _ _ Hr). by destruct st.
Qed.

Lemma toggleTodo_twice_in_flight_witness :
  let st := Examples.holding Examples.two_tasks Examples.no_filters
              (mkEdit None []) in
  let sent := run (st, []) [Invoke (ToggleTodo 0%nat); Invoke (ToggleTodo 0%nat)] in
  let final := run sent [Arrive 0%nat (Data None); Arrive 0%nat (Data None)] in
  in_flight sent = [UpdateCompleted true 1; UpdateCompleted true 1] /\
  final = (st, []).
Proof.
  intros st.
  apply (toggleTodo_twice_in_flight st 0%nat
           (Examples.a_task 1 "A" false high "2025-06-10T08:00:00Z" "2025-06-12")
           None None).
  reflexivity.
Defined.

(** ** Deleting and clearing *)

Lemma assign_filtered_spec p st :
  let st' := assign_filtered p st in
  collection st' = filter (on_object (heap st) p) (collection st) /\
  objects (heap st') = objects (heap st) /\
  form st' = form st /\ filters st' = filters st /\ edit st' = edit st /\
  console st' = console st.
Proof.
  unfold assign_filtered, Array_filter, collection.
  pose proof (elements_new_array (heap st)
    (filter (on_object (heap st) p) (elements (heap st) (todos st)))) as Hnew.
  destruct (new_array _ (heap st)) as [a h] eqn:Hna. simpl in *.
  split; [done|]. unfold new_array in Hna. by injection Hna as <- <-.
Qed.

Lemma on_object_true_iff h p r :
  on_object h p r = true <-> exists t, deref h r = Some t /\ p t = true.
Proof.
  unfold on_object. destruct (deref h r) as [t|].
  - split; [by exists t|]. by intros (t' & [= <-] & Hp).
  - split; [done|]. by intros (t' & [=] & _).
Qed.

(** X6. A delete of the id [n] is always sent. When it is confirmed, the
    collection holds the tasks it held whose id is not [n], in the order
    they had; the task objects, the form, the filters, the console and the
    edit sub-state are as before. *)
Theorem deleteTodo_confirmed (st : State) (n : Z) (d : option Todo)
    (r : oref) (t : Todo) :
  deref (heap st) r = Some t ->
  let st' := outcome (DeleteTodo n) (Data d) st in
  issue (DeleteTodo n) st = Some (Delete n, deleteTodo_k n) /\
  collection st'
  = filter (on_object (heap st) (fun todo => negb (id todo =? n))) (collection st) /\
  (r ∈ collection st' <-> r ∈ collection st /\ id t <> n) /\
  objects (heap st') = objects (heap st) /\
  form st' = form st /\ filters st' = filters st /\ edit st' = edit st /\
  console st' = console st.
Proof.
  intros Hr st'. split; [done|]. subst st'.
  rewrite (outcome_resume (DeleteTodo n) _ st (Delete n) (deleteTodo_k n) eq_refl).
  cbn [resume].
  destruct (assign_filtered_spec (fun todo => negb (id todo =? n)) st)
    as (Hcoll & Hrest).
  split; [done|]. split; [|done].
  rewrite Hcoll, list_elem_of_filter. unfold on_object. rewrite Hr.
  rewrite Is_true_true, negb_true_iff, Z.eqb_neq. tauto.
Qed.

Lemma deleteTodo_confirmed_witness :
  let st := Examples.holding Examples.two_tasks Examples.no_filters
              (mkEdit (Some 1) (lit "A2")) in
  let t := Examples.a_task 1 "A" false high "2025-06-10T08:00:00Z" "2025-06-12" in
  let st' := outcome (DeleteTodo 1) (Data None) st in
  issue (DeleteTodo 1) st = Some (Delete 1, deleteTodo_k 1) /\
  collection st'
  = filter (on_object (heap st) (fun todo => negb (id todo =? 1))) (collection st) /\
  (0%nat ∈ collection st' <-> 0%nat ∈ collection st /\ id t <> 1) /\
  objects (heap st') = objects (heap st) /\
  form st' = form st /\ filters st' = filters st /\ edit st' = edit st /\
  console st' = console st.
Proof.
  intros st t. apply (deleteTodo_confirmed st 1 None 0%nat t). reflexivity.
Defined.

(** X7. Deleting the task that is being edited does not leave the edit:
    after the confirmed delete of id [n] the sub-state is still
    [Editing n draft] while no task of the collection has the id [n], and
    a save (for [n] not [0] and a draft not empty after trimming) still
    sends the rename of [n]. *)
Theorem deleteTodo_while_editing (st : State) (n : Z) (draft : jsstring)
    (d : option Todo) :
  Editing st n draft ->
  let st' := outcome (DeleteTodo n) (Data d) st in
  Editing st' n draft /\
  (forall r t, r ∈ collection st' -> deref (heap st') r = Some t -> id t <> n) /\
  (n <> 0 -> trim draft <> [] ->
   saveEdit st' = Some (UpdateTask (trim draft) n, saveEdit_k) /\
   find_editing st' = None).
Proof.
  intros Hed st'. subst st'.
  rewrite (outcome_resume (DeleteTodo n) _ st (Delete n) (deleteTodo_k n) eq_refl).
  cbn [resume].
  destruct (assign_filtered_spec (fun todo => negb (id todo =? n)) st)
    as (Hcoll & Hobj & _ & _ & Hedit & _).
  set (st' := assign_filtered _ st) in *.
  assert (Hed' : Editing st' n draft) by (unfold Editing; by rewrite Hedit).
  assert (Habsent : forall r t, r ∈ collection st' ->
                      deref (heap st') r = Some t -> id t <> n).
  { intros r t Hin Hr. rewrite Hcoll in Hin.
    apply list_elem_of_filter in Hin as [Hkeep _].
    unfold deref in Hr. rewrite Hobj in Hr.
    unfold on_object, deref in Hkeep. rewrite Hr in Hkeep.
    apply Is_true_true, negb_true_iff, Z.eqb_neq in Hkeep. done. }
  split; [done|]. split; [done|]. intros Hn Hdraft.
  split; [by apply saveEdit_sends|].
  unfold find_editing. apply find_on_object_None.
  intros r t Hin Hr. rewrite Hed'. simpl. apply Z.eqb_neq. by eapply Habsent.
Qed.

Lemma deleteTodo_while_editing_witness :
  let st := Examples.holding Examples.two_tasks Examples.no_filters
              (mkEdit (Some 1) (lit "A2")) in
  let st' := outcome (DeleteTodo 1) (Data None) st in
  Editing st' 1 (lit "A2") /\
  (forall r t, r ∈ collection st' -> deref (heap st') r = Some t -> id t <> 1) /\
  (1 <> 0 -> trim (lit "A2") <> [] ->
   saveEdit st' = Some (UpdateTask (trim (lit "A2")) 1, saveEdit_k) /\
   find_editing st' = None).
Proof.
  intros st. apply (deleteTodo_while_editing st 1 (lit "A2") None). reflexivity.
Defined.

Lemma filter_on_object_none h p q (l : list oref) :
  (forall t, p t = true -> q t = false) ->
  filter (on_object h q) (filter (on_object h p) l) = [].
Proof.
  intros Hpq. rewrite filter_on_object_twice.
  induction l as [|r l IH]; [done|].
  assert (Hr : on_object h (fun t => p t && q t) r = false).
  { unfold on_object. destruct (deref h r) as [t|]; [|done].
    destruct (p t) eqn:Hp; [|done]. by rewrite (Hpq t Hp). }
  rewrite filter_cons_False; [done|]. rewrite Hr. by intros [].
Qed.

Lemma completedIds_nil_iff st :
  completedIds st = [] <->
  filter (on_object (heap st) completed) (collection st) = [].
Proof.
  unfold completedIds. split; [|by intros ->].
  destruct (filter _ _) as [|r l] eqn:Hf; [done|]. intros Hnil. exfalso.
  assert (Hr : r ∈ filter (on_object (heap st) completed) (collection st))
    by (rewrite Hf; left).
  apply list_elem_of_filter in Hr as [Hr _].
  apply Is_true_true, on_object_true_iff in Hr as (t & Ht & _).
  rewrite (omap_cons_Some _ r l (id t)) in Hnil; [done|]. by rewrite Ht.
Qed.

Lemma clearDisabled_iff st : clearDisabled st = true <-> completedIds st = [].
Proof.
  rewrite completedIds_nil_iff. unfold clearDisabled.
  rewrite negb_true_iff. generalize (collection st) as l.
  induction l as [|r l IH]; [done|]. simpl.
  destruct (on_object (heap st) completed r) eqn:Hr.
  - rewrite filter_cons_True by (rewrite Hr; exact I). simpl.
    split; discriminate.
  - rewrite filter_cons_False by (rewrite Hr; by intros []). simpl. exact IH.
Qed.

(** X8. The clear button is disabled exactly when no id would be sent: it
    is enabled exactly when the bulk delete that [clearCompleted] sends
    carries at least one id. The handler itself has no such guard: invoked
    with nothing completed it still sends a bulk delete, for no id. *)
Theorem clear_button_and_request (st : State) :
  (clearDisabled st = true <-> completedIds st = []) /\
  issue ClearCompleted st = Some (DeleteIn (completedIds st), clearCompleted_k).
Proof. split; [apply clearDisabled_iff|done]. Qed.

(** X9. When the bulk delete is confirmed in the state in which it was
    sent, no completed task is left: the collection holds the tasks that
    were not completed, in their order; a second clear would carry no id
    and the clear button is disabled; the number of pending tasks is as
    before and every task counts as pending. *)
Theorem clearCompleted_confirmed (st : State) (d : option Todo) :
  let st' := outcome ClearCompleted (Data d) st in
  collection st'
  = filter (on_object (heap st) (fun t => negb (completed t))) (collection st) /\
  completedIds st' = [] /\ clearDisabled st' = true /\
  completedCount st' = 0%nat /\
  pendingCount st' = pendingCount st /\
  pendingCount st' = length (collection st').
Proof.
  intros st'. subst st'.
  rewrite (outcome_resume ClearCompleted _ st (DeleteIn (completedIds st))
             clearCompleted_k eq_refl).
  destruct (resume_clearCompleted d st) as [Hcoll Hobj].
  set (st' := resume clearCompleted_k (Data d) st) in *.
  assert (Hnone : filter (on_object (heap st') completed) (collection st') = []).
  { rewrite Hcoll, (filter_on_object_ext (heap st) (heap st') completed completed)
      by done.
    apply filter_on_object_none. intros t. by destruct (completed t). }
  assert (Hall : filter (on_object (heap st') (fun t => negb (completed t)))
                        (collection st') = collection st').
  { rewrite Hcoll at 1.
    rewrite (filter_on_object_ext (heap st) (heap st') _
               (fun t => negb (completed t))) by done.
    rewrite filter_on_object_twice, Hcoll.
    apply filter_on_object_ext; [done|]. intros t. by destruct (completed t). }
  split; [done|].
  split; [by apply completedIds_nil_iff|].
  split; [by apply clearDisabled_iff, completedIds_nil_iff|].
  split; [unfold completedCount; by rewrite Hnone|].
  unfold pendingCount. rewrite Hall. split; [by rewrite Hcoll|done].
Qed.

(** ** What no reply does *)

Lemma ids_console_error label st : ids (console_error label st) = ids st.
Proof. done. Qed.

Lemma ids_write_object st r t t' :
  deref (heap st) r = Some t -> id t' = id t ->
  ids (with_heap (write_object r t' (heap st)) st) = ids st.
Proof.
  intros Hr Hid. unfold ids.
  change (collection (with_heap _ st)) with (collection st).
  apply omap_ext_in. intros r' _. simpl.
  destruct (decide (r' = r)) as [->|Hne].
  - rewrite (deref_write_object_eq _ _ t), Hr by done. simpl. by rewrite Hid.
  - by rewrite deref_write_object_ne.
Qed.

Lemma omap_filter_sublist {A B} (f : A -> option B) (P : A -> Prop)
    `{forall x, Decision (P x)} (l : list A) :
  omap f (filter P l) `sublist_of` omap f l.
Proof.
  induction l as [|x l IH]; [done|].
  change (omap f (x :: l))
    with (match f x with Some y => y :: omap f l | None => omap f l end).
  destruct (decide (P x)) as [HP|HP].
  - rewrite filter_cons_True by done.
    change (omap f (x :: filter P l))
      with (match f x with
            | Some y => y :: omap f (filter P l)
            | None => omap f (filter P l)
            end).
    destruct (f x); [by apply sublist_skip|done].
  - rewrite filter_cons_False by done.
    destruct (f x); [by apply sublist_cons|done].
Qed.

Lemma ids_assign_filtered p st : ids (assign_filtered p st) `sublist_of` ids st.
Proof.
  destruct (assign_filtered_spec p st) as (Hcoll & Hobj & _).
  unfold ids. rewrite Hcoll.
  rewrite (omap_ext_in (fun r => id <$> deref (heap (assign_filtered p st)) r)
             (fun r => id <$> deref (heap st) r)).
  - apply omap_filter_sublist.
  - intros r _. unfold deref. by rewrite Hobj.
Qed.

(** X10. Only a create confirmed with a row adds a task. Every other
    reply, to whatever intent and on whatever state, leaves the ids of the
    collection a subsequence of what they were: no task appears, none is
    duplicated, and the tasks that stay keep their order. *)
Theorem only_create_adds_tasks (k : Pending) (reply : Reply) (st : State) :
  creates k reply = false -> ids (resume k reply st) `sublist_of` ids st.
Proof.
  intros Hk. destruct reply as [d| |].
  - destruct k as [|r|n| |]; cbn [resume].
    + destruct d; [discriminate Hk|done].
    + destruct (deref (heap st) r) as [t|] eqn:Hr; [|done].
      by rewrite (ids_write_object st r t).
    + apply ids_assign_filtered.
    + change (ids (cancelEdit ?s)) with (ids s).
      destruct (find_editing st) as [r|]; [|done].
      destruct (deref (heap st) r) as [t|] eqn:Hr; [|done].
      by rewrite (ids_write_object st r t).
    + apply ids_assign_filtered.
  - destruct (resume_Error k st) as [label ->]. by rewrite ids_console_error.
  - by rewrite resume_Rejected, ids_console_error.
Qed.

Lemma only_create_adds_tasks_witness :
  let st := Examples.holding Examples.one_done Examples.no_filters
              (mkEdit None []) in
  ids (resume clearCompleted_k (Data None) st) `sublist_of` ids st.
Proof.
  intros st. apply (only_create_adds_tasks clearCompleted_k (Data None) st).
  reflexivity.
Defined.

(** ** Reading the view *)

Lemma view_after_read_without_filter `{Host} now st :
  filtering (filters st) = false ->
  collection (snd (filteredTodos now st))
  = stable_sort (on_objects (heap st) compareFn) (collection st).
Proof.
  intros Hf. destruct (filteredTodos_in_place now st Hf) as [_ Hheap].
  destruct (filteredTodos_spec now st) as (_ & (Htodos & _) & _).
  unfold collection at 1. rewrite Hheap, Htodos.
  apply elements_write_array_sorted.
Qed.

(** X11. On a well-formed state, reading the view never loses or
    duplicates a task of the collection: the collection after the read is
    a rearrangement of the collection before, the task objects are as
    before, and the view holds tasks of the collection only, each as often
    as the collection does at most; with no filter set it holds them
    all. *)
Theorem reading_view_keeps_tasks `{Host} (now : jsstring) (st : State) :
  well_formed st ->
  let st' := snd (filteredTodos now st) in
  collection st' ≡ₚ collection st /\
  objects (heap st') = objects (heap st) /\
  view now st ⊆+ collection st /\
  (filtering (filters st) = false -> view now st ≡ₚ collection st).
Proof.
  intros [Halloc _] st'. subst st'.
  destruct (filteredTodos_spec now st) as (Hobj & _).
  split; [|split; [done|split]].
  - destruct (filtering (filters st)) eqn:Hf.
    + by destruct (filteredTodos_fresh now st Hf Halloc) as (_ & -> & _).
    + rewrite (view_after_read_without_filter now st Hf).
      apply stable_sort_Permutation.
  - rewrite view_spec, stable_sort_Permutation.
    destruct (filtering (filters st)); [|done].
    apply sublist_submseteq, sublist_filter.
  - intros Hf. by rewrite view_spec, stable_sort_Permutation, Hf.
Qed.

Lemma reading_view_keeps_tasks_witness :
  let st := Examples.holding Examples.newest_first Examples.no_filters
              (mkEdit None []) in
  let now := lit "2025-06-13T10:00:00Z" in
  let st' := snd (filteredTodos (H := SampleHost.host) now st) in
  collection st' ≡ₚ collection st /\
  objects (heap st') = objects (heap st) /\
  view (H := SampleHost.host) now st ⊆+ collection st /\
  (filtering (filters st) = false ->
   view (H := SampleHost.host) now st ≡ₚ collection st).
Proof.
  intros st now.
  apply (@reading_view_keeps_tasks SampleHost.host now st).
  apply well_formed_holding.
Defined.

(** X12. On a well-formed state, reading the view a second time gives the
    same sequence as the first read, whatever the filters: the first read
    may have sorted the stored collection, the second finds it in order. *)
Theorem reading_view_twice `{Host} (now : jsstring) (st : State) :
  well_formed st ->
  view now (snd (filteredTodos now st)) = view now st.
Proof.
  intros [Halloc _].
  destruct (filteredTodos_spec now st) as (Hobj & (_ & _ & Hfilters & _) & _).
  simpl in Hfilters. set (st' := snd (filteredTodos now st)) in *.
  rewrite (view_spec now st'), (view_spec now st), Hfilters.
  rewrite (on_objects_objects _ _ _ Hobj).
  destruct (filtering (filters st)) eqn:Hf.
  - destruct (filteredTodos_fresh now st Hf Halloc) as (_ & Hcoll & _).
    fold st' in Hcoll. rewrite Hcoll. f_equal.
    by apply filter_on_object_ext.
  - subst st'. rewrite (view_after_read_without_filter now st Hf).
    apply stable_sort_of_sorted, stable_sort_Sorted.
    apply on_objects_compareFn_total.
Qed.

Lemma reading_view_twice_witness :
  let st := Examples.holding Examples.newest_first Examples.no_filters
              (mkEdit None []) in
  let now := lit "2025-06-13T10:00:00Z" in
  view (H := SampleHost.host) now
       (snd (filteredTodos (H := SampleHost.host) now st))
  = view (H := SampleHost.host) now st.
Proof.
  intros st now. apply (@reading_view_twice SampleHost.host now st).
  apply well_formed_holding.
Defined.

(** ** The aggregates of the header *)

Lemma isOverdue_overdueOn now t : isOverdue now t = overdueOn (todayOf now) t.
Proof.
  unfold isOverdue, overdueOn.
  destruct (due_date t) as [d|], (completed t); simpl;
    try done; by destruct (truthy d).
Qed.

(** X13. The overdue mark of a row, the overdue counter of the header and
    the overdue filter agree, on one reading of the clock: a task of the
    collection is counted in [overdueTasks] exactly when [isOverdue] marks
    it, and with the status filter on [overdue] and no other filter the
    view is a rearrangement of [overdueTasks], so it has as many rows as
    the alert announces. *)
Theorem overdue_mark_count_and_filter `{Host} (now : jsstring) (st : State)
    (r : oref) (t : Todo) :
  deref (heap st) r = Some t ->
  filters st = mkFilters [] (lit "overdue") (lit "all") (lit "all") ->
  (r ∈ overdueTasks now st <-> r ∈ collection st /\ isOverdue now t = true) /\
  view now st ≡ₚ overdueTasks now st /\
  length (view now st) = length (overdueTasks now st).
Proof.
  intros Hr Hf.
  assert (Hview : view now st ≡ₚ overdueTasks now st).
  { rewrite view_spec, stable_sort_Permutation, Hf. unfold overdueTasks.
    change (filtering _) with true. cbv iota.
    rewrite (filter_on_object_ext (heap st) (heap st)
               (selects now (mkFilters [] (lit "overdue") (lit "all") (lit "all")))
               (overdueOn (todayOf now))); [done..|].
    intros t0. unfold selects, statusPred, when.
    cbn [searchQuery selectedFilter selectedCategory selectedPriority truthy].
    change (eqb (lit "overdue") (lit "pending")) with false.
    change (eqb (lit "overdue") (lit "completed")) with false.
    change (eqb (lit "overdue") (lit "overdue")) with true.
    change (eqb (lit "all") (lit "all")) with true.
    cbn [negb]. by rewrite !andb_true_r. }
  split; [|split; [done|by rewrite Hview]].
  unfold overdueTasks. rewrite list_elem_of_filter. unfold on_object.
  rewrite Hr, isOverdue_overdueOn, Is_true_true. tauto.
Qed.

Lemma overdue_mark_count_and_filter_witness :
  let st := Examples.holding Examples.two_tasks
              (mkFilters [] (lit "overdue") (lit "all") (lit "all"))
              (mkEdit None []) in
  let now := lit "2025-06-13T10:00:00Z" in
  let t := Examples.a_task 1 "A" false high "2025-06-10T08:00:00Z" "2025-06-12" in
  (0%nat ∈ overdueTasks now st
   <-> 0%nat ∈ collection st /\ isOverdue now t = true) /\
  view (H := SampleHost.host) now st ≡ₚ overdueTasks now st /\
  length (view (H := SampleHost.host) now st) = length (overdueTasks now st).
Proof.
  intros st now t.
  apply (@overdue_mark_count_and_filter SampleHost.host now st 0%nat t);
    reflexivity.
Defined.

(** X14. On one reading of the clock no task is counted both as due today
    and as overdue; a task due today is counted as such whether it is
    completed or not, while a completed task is never overdue. *)
Theorem today_and_overdue (now : jsstring) (st : State) (r : oref) (t : Todo) :
  deref (heap st) r = Some t ->
  ~ (r ∈ todayTasks now st /\ r ∈ overdueTasks now st) /\
  (r ∈ todayTasks now st <->
   r ∈ collection st /\ due_date t = Some (todayOf now)) /\
  (completed t = true -> r ∉ overdueTasks now st).
Proof.
  intros Hr. unfold todayTasks, overdueTasks.
  rewrite !list_elem_of_filter. unfold on_object. rewrite Hr.
  rewrite !Is_true_true. unfold dueOn, overdueOn.
  split; [|split].
  - intros [[Htoday _] [Hover _]].
    destruct (due_date t) as [d|]; [|done].
    apply eqb_true_iff in Htoday as ->.
    rewrite ltb_irrefl in Hover. by destruct (completed t), (truthy (todayOf now)).
  - destruct (due_date t) as [d|].
    + rewrite eqb_true_iff. split; intros [He Hin]; split; congruence.
    + split; [by intros [? _]|by intros [_ ?]].
  - intros Hc [Hover _]. by rewrite Hc in Hover.
Qed.

Lemma today_and_overdue_witness :
  let st := Examples.holding Examples.two_tasks Examples.no_filters
              (mkEdit None []) in
  let now := lit "2025-06-12T10:00:00Z" in
  let t := Examples.a_task 1 "A" false high "2025-06-10T08:00:00Z" "2025-06-12" in
  ~ (0%nat ∈ todayTasks now st /\ 0%nat ∈ overdueTasks now st) /\
  (0%nat ∈ todayTasks now st <->
   0%nat ∈ collection st /\ due_date t = Some (todayOf now)) /\
  (completed t = true -> 0%nat ∉ overdueTasks now st).
Proof.
  intros st now t. apply (today_and_overdue now st 0%nat t). reflexivity.
Defined.

Lemma length_filter_split h (l : list oref) :
  (forall r, r ∈ l -> is_Some (deref h r)) ->
  (length (filter (on_object h (fun t => negb (completed t))) l)
   + length (filter (on_object h completed) l) = length l)%nat.
Proof.
  induction l as [|r l IH]; intros Hlive; [done|].
  assert (IH' := IH (fun r' Hr' => Hlive r' (list_elem_of_further _ _ _ Hr'))).
  destruct (Hlive r) as [t Ht]; [left|].
  destruct (completed t) eqn:Hc.
  - rewrite (filter_cons_False _ r), (filter_cons_True _ r).
    + simpl. lia.
    + unfold on_object. by rewrite Ht, Hc.
    + unfold on_object. rewrite Ht, Hc. by intros [].
  - rewrite (filter_cons_True _ r), (filter_cons_False _ r).
    + simpl. lia.
    + unfold on_object. rewrite Ht, Hc. by intros [].
    + unfold on_object. by rewrite Ht, Hc.
Qed.

(** X15. On a well-formed state the two counters of the header add up to
    the size of the collection: every task is counted as pending or as
    completed, and none as both. *)
Theorem counters_add_up (st : State) :
  well_formed st ->
  (pendingCount st + completedCount st = length (collection st))%nat.
Proof. intros [_ Hlive]. by apply length_filter_split. Qed.

Lemma counters_add_up_witness :
  let st := Examples.holding Examples.one_done Examples.no_filters
              (mkEdit None []) in
  (pendingCount st + completedCount st = length (collection st))%nat.
Proof. intros st. apply (counters_add_up st). apply well_formed_holding. Defined.

(** ** Loading the collection *)

Lemma view_of_empty `{Host} now st : collection st = [] -> view now st = [].
Proof.
  intros Hnil. rewrite view_spec, Hnil. by destruct (filtering (filters st)).
Qed.

Lemma collection_assign_rows rows st :
  collection (assign_rows rows st)
  = seq (length (objects (heap st))) (length rows).
Proof.
  unfold collection, assign_rows, elements. simpl.
  rewrite lookup_app_r by lia. by rewrite Nat.sub_diag.
Qed.





(** X17. A select that fails, by an error or a rejected call, changes
    nothing but the console and lowers [loading]. So when the collection
    is empty, as it is when the component is set up, a failed load, a load
    answered with no row and a load answered with [data: null] all end
    the same way: not loading, the collection empty and the empty state
    shown; while the select is in flight the empty state is not shown. *)
Theorem fetchTodos_failed `{Host} (now : jsstring) (p : Page) :
  (same_but_console (component p)
     (component (fetchTodos_resume FetchError (fetchTodos p))) /\
   same_but_console (component p)
     (component (fetchTodos_resume FetchRejected (fetchTodos p))) /\
   loading (fetchTodos_resume FetchError (fetchTodos p)) = false /\
   loading (fetchTodos_resume FetchRejected (fetchTodos p)) = false /\
   shows_empty_state now (fetchTodos p) = false) /\
  (collection (component p) = [] ->
   forall reply,
     reply = FetchError \/ reply = FetchRejected \/ reply = Fetched None \/
     reply = Fetched (Some []) ->
     let p' := fetchTodos_resume reply (fetchTodos p) in
     loading p' = false /\ collection (component p') = [] /\
     shows_empty_state now p' = true).
Proof.
  split; [by repeat split|].
  intros Hnil reply Hreply p'.
  assert (Hcoll : collection (component p') = []).
  { subst p'. destruct Hreply as [Hr|[Hr|[Hr|Hr]]]; rewrite Hr; try done;
      apply (collection_assign_rows [] (component p)). }
  split; [done|]. split; [done|].
  unfold shows_empty_state. by rewrite (view_of_empty now _ Hcoll).
Qed.

Lemma fetchTodos_failed_witness :
  let now := lit "2025-06-13T10:00:00Z" in
  let p' := fetchTodos_resume FetchError (fetchTodos initial) in
  loading p' = false /\ collection (component p') = [] /\
  shows_empty_state (H := SampleHost.host) now p' = true.
Proof.
  intros now.
  apply (proj2 (@fetchTodos_failed SampleHost.host now initial) eq_refl
           FetchError (or_introl eq_refl)).
Defined.

(** ** Colours *)

Lemma color_or_unknown table v fallback :
  (forall e, In e table -> fst e <> v) -> color_or table v fallback = fallback.
Proof.
  intros Hno. unfold color_or.
  destruct (List.find _ table) as [e|] eqn:Hfind; [|done].
  apply find_some in Hfind as [Hin He]. apply eqb_true_iff in He.
  by destruct (Hno e Hin).
Qed.

Lemma color_or_listed table v fallback :
  In fallback (map snd table) ->
  In (color_or table v fallback) (map snd table).
Proof.
  intros Hfb. unfold color_or.
  destruct (List.find _ table) as [e|] eqn:Hfind; [|done].
  destruct (truthy (snd e)); [|done].
  apply find_some in Hfind as [Hin _]. by apply in_map.
Qed.

(** X18. [getCategoryColor] always answers with a colour of the table of
    categories; a category that is not in the table gets the colour of
    [personal]. *)
Theorem getCategoryColor_answers (category : jsstring) :
  In (getCategoryColor category) (map snd categories) /\
  ((forall e, In e categories -> fst e <> category) ->
   getCategoryColor category = getCategoryColor (lit "personal")).
Proof.
  split.
  - apply color_or_listed. by left.
  - intros Hno. unfold getCategoryColor at 1. by rewrite color_or_unknown.
Qed.

Lemma getCategoryColor_answers_witness :
  In (getCategoryColor (lit "garden")) (map snd categories) /\
  getCategoryColor (lit "garden") = getCategoryColor (lit "personal").
Proof.
  split.
  - apply (getCategoryColor_answers (lit "garden")).
  - apply (getCategoryColor_answers (lit "garden")).
    intros e He. repeat (destruct He as [<-|He]; [by vm_compute|]). destruct He.
Defined.

(** X19. [getPriorityColor] answers each of the three priorities with the
    colour of its entry, and anything else with the colour of [medium]. *)
Theorem getPriorityColor_answers (priority : jsstring) :
  (forall p, priority = priorityName p ->
     getPriorityColor priority
     = match p with
       | low => lit "#74b9ff"
       | medium => lit "#fdcb6e"
       | high => lit "#e17055"
       end) /\
  ((forall p, priority <> priorityName p) ->
   getPriorityColor priority = getPriorityColor (lit "medium")).
Proof.
  split.
  - intros p ->. by destruct p.
  - intros Hno. unfold getPriorityColor at 1. rewrite color_or_unknown; [done|].
    intros e He.
    destruct He as [<-|[<-|[<-|[]]]]; simpl; intros Heq.
    + by apply (Hno low).
    + by apply (Hno medium).
    + by apply (Hno high).
Qed.

Lemma getPriorityColor_answers_witness :
  getPriorityColor (lit "high") = lit "#e17055" /\
  getPriorityColor (lit "urgent") = getPriorityColor (lit "medium").
Proof.
  split.
  - apply (proj1 (getPriorityColor_answers (lit "high")) high). reflexivity.
  - apply (getPriorityColor_answers (lit "urgent")).
    intros p Hp. destruct p; vm_compute in Hp; discriminate Hp.
Defined.

(** ** A save that is overtaken *)

Lemma step_StartEdit st flight todo :
  step (st, flight) (StartEdit todo) = (startEdit todo st, flight).
Proof. done. Qed.

Lemma step_TypeEdit st flight text :
  step (st, flight) (TypeEdit text)
  = (with_edit (mkEdit (editingTodo (edit st)) text) st, flight).
Proof. done. Qed.

(** X20. The handler of the rename reads the edited id and the draft
    again when its reply arrives. So if, while the rename of task [n] is
    in flight, another task [b] is put under edit and the draft changed to
    [text], the confirmation of the rename of [n] gives [b] the title
    [text], trimmed and not checked for emptiness, although no rename of
    [b] was sent; every other task object, that of [n] included when it is
    another one, keeps its title, and the edit of [b] is closed. *)
Theorem saveEdit_overtaken (st : State) (n : Z) (draft text : jsstring)
    (l1 l2 : list oref) (rb : oref) (tb : Todo) (d : option Todo) :
  Editing st n draft -> n <> 0 -> trim draft <> [] ->
  collection st = l1 ++ rb :: l2 ->
  deref (heap st) rb = Some tb ->
  (forall r' t', r' ∈ l1 -> deref (heap st) r' = Some t' -> id t' <> id tb) ->
  let sent := run (st, []) [Invoke SaveEdit] in
  let final := run sent [StartEdit rb; TypeEdit text; Arrive 0%nat (Data d)] in
  in_flight sent = [UpdateTask (trim draft) n] /\
  in_flight final = [] /\
  deref (heap (fst final)) rb = Some (set_task (trim text) tb) /\
  (forall r', r' <> rb -> deref (heap (fst final)) r' = deref (heap st) r') /\
  collection (fst final) = collection st /\
  Idle (fst final).
Proof.
  intros Hed Hn Hdraft Hcoll Hrb Hfirst sent final.
  pose proof (saveEdit_sends st n draft Hed Hn Hdraft) as Hsend.
  assert (Hsent : sent = (st, [(UpdateTask (trim draft) n, saveEdit_k)])).
  { subst sent. unfold run. cbn [foldl].
    by rewrite (step_Invoke st [] SaveEdit _ Hsend). }
  split; [by rewrite Hsent|].
  subst final. rewrite Hsent. unfold run. cbn [foldl].
  rewrite step_StartEdit, step_TypeEdit.
  assert (Hstart : startEdit rb st = with_edit (mkEdit (Some (id tb)) (task tb)) st).
  { unfold startEdit. by rewrite Hrb. }
  rewrite Hstart. cbn [edit with_edit editingTodo].
  set (st2 := with_edit (mkEdit (Some (id tb)) text)
                (with_edit (mkEdit (Some (id tb)) (task tb)) st)).
  rewrite (step_Arrive st2 [(UpdateTask (trim draft) n, saveEdit_k)] 0%nat
             _ saveEdit_k (Data d) eq_refl).
  cbn [delete list_delete].
  assert (Hfind : find_editing st2 = Some rb).
  { unfold find_editing. change (collection st2) with (collection st).
    rewrite Hcoll. subst st2. simpl.
    apply find_on_object_first with tb; [|done|by apply Z.eqb_eq].
    intros r' t' Hin Hr'. apply Z.eqb_neq. by eapply Hfirst. }
  cbn [resume]. rewrite Hfind.
  change (deref (heap st2) rb) with (deref (heap st) rb). rewrite Hrb.
  change (editText (edit st2)) with text.
  cbn [fst snd in_flight]. split; [done|].
  split; [by apply deref_write_object_eq with tb|].
  split; [|done]. intros r' Hne. by apply deref_write_object_ne.
Qed.

Lemma saveEdit_overtaken_witness :
  let st := Examples.holding Examples.two_tasks Examples.no_filters
              (mkEdit (Some 1) (lit "A2")) in
  let tb := Examples.a_task 2 "B" false low "2025-06-11T08:00:00Z" "2025-06-14" in
  let sent := run (st, []) [Invoke SaveEdit] in
  let final := run sent [StartEdit 1%nat; TypeEdit (lit "  ");
                         Arrive 0%nat (Data None)] in
  in_flight sent = [UpdateTask (trim (lit "A2")) 1] /\
  in_flight final = [] /\
  deref (heap (fst final)) 1%nat = Some (set_task (trim (lit "  ")) tb) /\
  (forall r', r' <> 1%nat -> deref (heap (fst final)) r' = deref (heap st) r') /\
  collection (fst final) = collection st /\
  Idle (fst final).
Proof.
  intros st tb.
  apply (saveEdit_overtaken st 1 (lit "A2") (lit "  ") [0%nat] [] 1%nat tb None);
    [reflexivity|lia| |reflexivity|reflexivity|].
  - vm_compute. discriminate.
  - intros r' t' Hin Hr'. apply list_elem_of_singleton in Hin as ->.
    vm_compute in Hr'. inversion Hr'; subst t'. simpl. lia.
Defined.

(** ** The percentage *)

(** For every size up to 100, evaluated: the percentage lies between 0 and
    100, is 0 with nothing completed and 100 with everything completed. *)
Lemma percentage_range_checked :
  forallb (fun n =>
             forallb (fun c => PrimFloat.leb 0 (percentage c n)
                               && PrimFloat.leb (percentage c n) 100)
                     (seq 0 (S n))
             && PrimFloat.eqb (percentage 0 n) 0
             && PrimFloat.eqb (percentage n n) 100)
          (seq 1 100) = true.
Proof. vm_compute. reflexivity. Qed.

Lemma percentage_range (c n : nat) :
  (1 <= n <= 100)%nat -> (c <= n)%nat ->
  PrimFloat.leb 0 (percentage c n) = true /\
  PrimFloat.leb (percentage c n) 100 = true /\
  PrimFloat.eqb (percentage 0 n) 0 = true /\
  PrimFloat.eqb (percentage n n) 100 = true.
Proof.
  intros Hn Hc.
  pose proof (proj1 (forallb_forall _ _) percentage_range_checked n
                (proj2 (in_seq 100 1 n) ltac:(lia))) as Hrow.
  apply andb_prop in Hrow as [Hrow H100]. apply andb_prop in Hrow as [Hrow H0].
  pose proof (proj1 (forallb_forall _ _) Hrow c
                (proj2 (in_seq (S n) 0 c) ltac:(lia))) as Hc'.
  apply andb_prop in Hc' as [Hlo Hhi]. done.
Qed.

(** X21. For a collection of at most 100 tasks the percentage shown lies
    between 0 and 100; it is 0 when no task is completed (the empty
    collection included) and 100 when the collection is not empty and
    every task is completed. *)
Theorem completionPercentage_range (st : State) :
  (length (collection st) <= 100)%nat ->
  PrimFloat.leb 0 (completionPercentage st) = true /\
  PrimFloat.leb (completionPercentage st) 100 = true /\
  (completedCount st = 0%nat ->
   PrimFloat.eqb (completionPercentage st) 0 = true) /\
  (collection st <> [] -> completedCount st = length (collection st) ->
   PrimFloat.eqb (completionPercentage st) 100 = true).
Proof.
  intros Hlen. rewrite completionPercentage_percentage.
  fold (completedCount st).
  assert (Hc : (completedCount st <= length (collection st))%nat)
    by apply length_filter.
  destruct (collection st) as [|r l] eqn:Hcoll.
  - by repeat split.
  - set (n := length (r :: l)) in *.
    assert (Hn : (1 <= n <= 100)%nat) by (subst n; simpl in *; lia).
    replace (Nat.eqb n 0) with false by (subst n; done).
    destruct (percentage_range (completedCount st) n Hn Hc)
      as (Hlo & Hhi & H0 & H100).
    repeat split; try done.
    + by intros ->.
    + by intros _ ->.
Qed.

Lemma completionPercentage_range_witness :
  let st := Examples.holding Examples.one_done Examples.no_filters
              (mkEdit None []) in
  PrimFloat.leb 0 (completionPercentage st) = true /\
  PrimFloat.leb (completionPercentage st) 100 = true /\
  (completedCount st = 0%nat ->
   PrimFloat.eqb (completionPercentage st) 0 = true) /\
  (collection st <> [] -> completedCount st = length (collection st) ->
   PrimFloat.eqb (completionPercentage st) 100 = true).
Proof.
  intros st. apply (completionPercentage_range st). vm_compute. lia.
Defined.

Lemma filter_on_object_elsewhere h r t' p (l : list oref) :
  r ∉ l ->
  filter (on_object (write_object r t' h) p) l = filter (on_object h p) l.
Proof.
  intros Hr. induction l as [|x l IH]; [done|].
  apply not_elem_of_cons in Hr as [Hne Hr].
  assert (Hx : on_object (write_object r t' h) p x = on_object h p x).
  { unfold on_object. by rewrite deref_write_object_ne. }
  destruct (on_object h p x) eqn:Hp.
  - rewrite !filter_cons_True by (by rewrite ?Hx, ?Hp). by rewrite IH.
  - rewrite !filter_cons_False by (rewrite ?Hx, ?Hp; by intros []). by apply IH.
Qed.

Lemma completed_after_toggle h r t (l : list oref) :
  NoDup l -> r ∈ l -> deref h r = Some t -> completed t = false ->
  length (filter (on_object (write_object r (set_completed true t) h) completed) l)
  = S (length (filter (on_object h completed) l)).
Proof.
  intros Hnd Hin Hr Hc. induction Hnd as [|x l Hx Hnd IH]; [by apply elem_of_nil in Hin|].
  destruct (decide (x = r)) as [->|Hne].
  - rewrite filter_cons_True, filter_cons_False.
    + simpl. by rewrite filter_on_object_elsewhere.
    + unfold on_object. rewrite Hr, Hc. by intros [].
    + unfold on_object. by rewrite (deref_write_object_eq _ _ t).
  - apply elem_of_cons in Hin as [->|Hin]; [done|].
    assert (Hsame : on_object (write_object r (set_completed true t) h) completed x
                    = on_object h completed x).
    { unfold on_object. by rewrite deref_write_object_ne. }
    destruct (on_object h completed x) eqn:Hp.
    + rewrite !filter_cons_True by (by rewrite ?Hsame, ?Hp).
      simpl. by rewrite IH.
    + rewrite !filter_cons_False by (rewrite ?Hsame, ?Hp; by intros []).
      by apply IH.
Qed.

(** X22. In a collection of at most 100 tasks, each held once, confirming
    the toggle of a pending task raises the number of completed tasks by
    one and never lowers the percentage shown. *)
Theorem toggle_pending_raises_percentage (st : State) (r : oref) (t : Todo)
    (d : option Todo) :
  NoDup (collection st) -> (length (collection st) <= 100)%nat ->
  r ∈ collection st -> deref (heap st) r = Some t -> completed t = false ->
  let st' := outcome (ToggleTodo r) (Data d) st in
  completedCount st' = S (completedCount st) /\
  PrimFloat.leb (completionPercentage st) (completionPercentage st') = true.
Proof.
  intros Hnd Hlen Hin Hr Hc st'. subst st'.
  rewrite (outcome_resume _ _ st _ _ (toggleTodo_sends st r t Hr)).
  rewrite (resume_toggleTodo st r t d Hr), Hc. cbn [negb].
  set (st' := with_heap _ st).
  assert (Hcoll : collection st' = collection st) by done.
  assert (Hcount : completedCount st' = S (completedCount st)).
  { unfold completedCount. rewrite Hcoll. by apply completed_after_toggle. }
  split; [done|].
  rewrite !completionPercentage_percentage. fold (completedCount st').
  fold (completedCount st). rewrite Hcoll, Hcount.
  assert (Hle : (completedCount st' <= length (collection st'))%nat)
    by apply length_filter.
  rewrite Hcoll, Hcount in Hle.
  destruct (collection st) as [|x l] eqn:Hx; [by apply elem_of_nil in Hin|].
  replace (Nat.eqb (length (x :: l)) 0) with false by done.
  apply percentage_monotone; [done|lia].
Qed.

Lemma toggle_pending_raises_percentage_witness :
  let st := Examples.holding Examples.two_tasks Examples.no_filters
              (mkEdit None []) in
  let st' := outcome (ToggleTodo 1%nat) (Data None) st in
  completedCount st' = S (completedCount st) /\
  PrimFloat.leb (completionPercentage st) (completionPercentage st') = true.
Proof.
  intros st.
  apply (toggle_pending_raises_percentage st 1%nat
           (Examples.a_task 2 "B" false low "2025-06-11T08:00:00Z" "2025-06-14")
           None).
  - change (collection st) with [0; 1]%nat. apply NoDup_cons. split.
    + intros Hin%list_elem_of_singleton. discriminate Hin.
    + apply NoDup_singleton.
  - vm_compute. lia.
  - change (collection st) with [0; 1]%nat. right. left.
  - reflexivity.
  - reflexivity.
Defined.

(** ** Ties in the view *)

Section StableOn.
Context {A : Type} (cmp : A -> A -> Z) (P : A -> Prop).
Hypothesis cmp_trans_on :
  forall x y z, P x -> P y -> P z ->
                cmp x y <= 0 -> cmp y z <= 0 -> cmp x z <= 0.


Lemma Forall_insert a l : P a -> Forall P l -> Forall P (insert cmp a l).
Proof.
  intros Ha Hl.
  eapply Permutation_Forall; [symmetry; apply insert_Permutation|].
  by constructor.
Qed.

End StableOn.




